(** * easyclimate.plot.quick_draw: the basemap factory

    A shallow embedding of [quick_draw_spatial_basemap]
    (src/easyclimate/plot/quick_draw.py).  The function owns no data and
    no algorithm: it issues calls to the plotting toolkit
    ([ccrs.PlateCarree], [plt.subplots], [ndarray.flat],
    [GeoAxes.gridlines], [GeoAxes.coastlines]) and hands back what
    [plt.subplots] produced.  The embedding therefore keeps the function
    as a program over those calls, interpreted against any provider of
    them; a recording double of the toolkit, following the documented
    return convention of [matplotlib.pyplot.subplots], gives the calls a
    concrete meaning on a heap of Python objects. *)

From Stdlib Require Import ZArith PrimFloat.
From stdpp Require Import base list strings pretty.

Open Scope Z_scope.

(** ** Python values

    Immutable scalars are values; lists, dicts, figures, axes and arrays
    are objects on the heap and are passed by reference. *)

Abbreviation loc := nat.

Inductive pyval : Type :=
| VNone
| VBool (b : bool)
| VInt (z : Z)
| VFloat (f : float)
| VStr (s : string)
| VRef (l : loc).

Inductive exn : Type :=
| ValueError (msg : string)
| TypeError (msg : string)
| AttributeError (msg : string).

(** ** The toolkit interface

    One constructor per external call the function makes.  A method call
    carries its receiver as [self]: Python dispatches on the object, so
    the receiver is whatever the toolkit handed out earlier. *)

Inductive call : Type :=
| PlateCarree (central_longitude : pyval)
| subplots (nrows ncols : Z) (subplot_kw : list (string * pyval))
| flat (self : pyval)
| gridlines (self draw_labels color alpha linestyle : pyval)
| coastlines (self edgecolor linewidths : pyval).

Definition answer (c : call) : Type :=
  match c with
  | PlateCarree _ => pyval
  | subplots _ _ _ => (pyval * pyval)%type
  | flat _ => list pyval
  | gridlines _ _ _ _ _ => pyval
  | coastlines _ _ _ => pyval
  end.

(** ** Programs over the interface *)

Inductive prog (R : Type) : Type :=
| Ret (r : R)
| Vis (c : call) (k : answer c → prog R).
Arguments Ret {R} r.
Arguments Vis {R} c k.

Fixpoint bind {A B} (p : prog A) (f : A → prog B) : prog B :=
  match p with
  | Ret a => f a
  | Vis c k => Vis c (λ x, bind (k x) f)
  end.

#[global] Instance prog_ret : MRet prog := λ _ r, Ret r.
#[global] Instance prog_bind : MBind prog := λ _ _ f p, bind p f.

Definition ccrs_PlateCarree (central_longitude : pyval) : prog pyval :=
  Vis (PlateCarree central_longitude) Ret.
Definition plt_subplots (nrows ncols : Z) (subplot_kw : list (string * pyval))
  : prog (pyval * pyval) :=
  Vis (subplots nrows ncols subplot_kw) Ret.
Definition ax_flat (self : pyval) : prog (list pyval) :=
  Vis (flat self) Ret.
Definition ax_gridlines (self draw_labels color alpha linestyle : pyval)
  : prog pyval :=
  Vis (gridlines self draw_labels color alpha linestyle) Ret.
Definition ax_coastlines (self edgecolor linewidths : pyval) : prog pyval :=
  Vis (coastlines self edgecolor linewidths) Ret.

(** [for x in xs: body x] *)
Fixpoint for_each {A} (xs : list A) (body : A → prog unit) : prog unit :=
  match xs with
  | [] => Ret tt
  | x :: xs' => bind (body x) (λ _, for_each xs' body)
  end.

(** ** The function *)

Record kwargs : Type := {
  nrows : Z;
  ncols : Z;
  central_longitude : pyval;
  draw_labels : pyval;
  gridlines_color : pyval;
  gridlines_alpha : pyval;
  gridlines_linestyle : pyval;
  coastlines_edgecolor : pyval;
  coastlines_linewidths : pyval
}.

(** The default [draw_labels] is the list object built once, when the
    [def] statement runs; every call that omits the argument receives a
    reference to that same object. *)
Definition default_draw_labels_loc : loc := 0%nat.

Definition defaults : kwargs := {|
  nrows := 1;
  ncols := 1;
  central_longitude := VFloat 0.0;
  draw_labels := VRef default_draw_labels_loc;
  gridlines_color := VStr "grey";
  gridlines_alpha := VFloat 0.5;
  gridlines_linestyle := VStr "--";
  coastlines_edgecolor := VStr "black";
  coastlines_linewidths := VFloat 0.5
|}.

Definition quick_draw_spatial_basemap (a : kwargs) : prog (pyval * pyval) :=
  crs ← ccrs_PlateCarree (central_longitude a);
  '(fig, ax) ← plt_subplots (nrows a) (ncols a) [("projection", crs)];
  (if (nrows a =? 1) && (ncols a =? 1) then
     ax_gridlines ax (draw_labels a) (gridlines_color a)
                  (gridlines_alpha a) (gridlines_linestyle a);;
     ax_coastlines ax (coastlines_edgecolor a) (coastlines_linewidths a);;
     mret tt
   else
     axs ← ax_flat ax;
     for_each axs (λ axi,
       ax_gridlines axi (draw_labels a) (gridlines_color a)
                    (gridlines_alpha a) (gridlines_linestyle a);;
       ax_coastlines axi (coastlines_edgecolor a) (coastlines_linewidths a);;
       mret tt));;
  mret (fig, ax).

(** [n] calls in a row, each with the same arguments, results dropped. *)
Fixpoint repeat_calls (n : nat) (a : kwargs) : prog unit :=
  match n with
  | O => Ret tt
  | S n' => bind (quick_draw_spatial_basemap a) (λ _, repeat_calls n' a)
  end.

(** ** Running a program against a provider

    A provider answers each call from its own state, or raises.  A raised
    exception ends the run at once; what the provider did to its state
    up to then stays done.  The run also records every call issued,
    with the answer it got. *)

Definition handler (W : Type) : Type :=
  ∀ c : call, W → (exn + answer c) * W.

Record event : Type := Ev {
  ev_call : call;
  ev_answer : exn + answer ev_call
}.

Record outcome (W R : Type) : Type := Outcome {
  res : exn + R;
  world : W;
  trace : list event
}.
Arguments Outcome {W R} res world trace.
Arguments res {W R} o.
Arguments world {W R} o.
Arguments trace {W R} o.

Fixpoint run {W R} (h : handler W) (p : prog R) (w : W) : outcome W R :=
  match p with
  | Ret r => Outcome (inr r) w []
  | Vis c k =>
      match h c w with
      | (inl e, w') => Outcome (inl e) w' [Ev c (inl e)]
      | (inr x, w') =>
          let o := run h (k x) w' in
          Outcome (res o) (world o) (Ev c (inr x) :: trace o)
      end
  end.

Definition raised (ev : event) : option exn :=
  match ev_answer ev with inl e => Some e | inr _ => None end.

Definition answered (ev : event) : Prop := raised ev = None.

(** A provider that additionally fails wherever [f] says so, before the
    underlying provider is reached. *)
Definition inject {W} (f : call → W → option exn) (h : handler W) : handler W :=
  λ c w, match f c w with
         | Some e => (inl e, w)
         | None => h c w
         end.

(** Classification of the calls. *)
Definition is_decoration (c : call) : bool :=
  match c with
  | gridlines _ _ _ _ _ | coastlines _ _ _ => true
  | _ => false
  end.

Definition is_construction (c : call) : bool :=
  match c with
  | PlateCarree _ | subplots _ _ _ => true
  | _ => false
  end.

Definition receiver (c : call) : option pyval :=
  match c with
  | flat s | gridlines s _ _ _ _ | coastlines s _ _ => Some s
  | _ => None
  end.

(** The two decoration calls the function makes on one surface. *)
Definition gridlines_call (a : kwargs) (s : pyval) : call :=
  gridlines s (draw_labels a) (gridlines_color a)
            (gridlines_alpha a) (gridlines_linestyle a).
Definition coastlines_call (a : kwargs) (s : pyval) : call :=
  coastlines s (coastlines_edgecolor a) (coastlines_linewidths a).

(** ** A recording double of the toolkit

    Modelled from the toolkit's documentation, which is not part of this
    repository: [matplotlib.pyplot.subplots] is called with its default
    [squeeze=True], so a 1x1 grid comes back as the Axes itself, an Nx1
    or 1xM grid as a one-dimensional array and an NxM grid as a
    two-dimensional array; the subplots are made row by row and every
    one of them receives [subplot_kw].  [plt.subplots] makes its figure
    first and lays out the grid next, so a non-positive row or column
    count is a [ValueError] raised with the new, empty figure already
    there.  Decorating an axes appends an artist to it; cartopy's
    [coastlines(resolution, color="black", **kwargs)] overwrites the
    [edgecolor] keyword with [color], which the function never passes,
    so the coastline artist is black whatever [edgecolor] it was given.
    [ndarray.flat] walks an array in row-major order.

    The double is the toolkit on the arguments it accepts.  Which
    arguments the toolkit rejects (a label selector it does not know, a
    central longitude that is not a number, a style it cannot use) is
    not decided here: [inject f mpl] adds any such rejection, and what
    is proved of the toolkit for arbitrary arguments is proved for every
    [f]; [mpl] alone is run on the function's defaults and on calls
    that return. *)

Inductive artist : Type :=
| Gridliner (draw_labels color alpha linestyle : pyval)
| CoastlineFeature (edgecolor linewidths : pyval).

Inductive object : Type :=
| OList (items : list pyval)
| ODict (items : list (pyval * pyval))
| OPlateCarree (central_longitude : pyval)
| OFigure (axes : list pyval)
| OAxes (position : nat * nat) (projection : pyval) (artists : list artist)
| ONdarray1 (data : list pyval)
| ONdarray2 (rows : list (list pyval)).

Abbreviation heap := (list object).

(** The heap as it is once the module is imported: the [def] statement
    has built the default [draw_labels] list. *)
Definition import_heap : heap := [OList [VStr "bottom"; VStr "left"]].

Fixpoint kw_get (key : string) (kw : list (string * pyval)) : pyval :=
  match kw with
  | [] => VNone
  | (k, v) :: kw' => if String.eqb k key then v else kw_get key kw'
  end.

(** An [r] by [c] table, row by row. *)
Definition grid {A} (r c : nat) (f : nat → nat → A) : list (list A) :=
  map (λ i, map (f i) (seq 0 c)) (seq 0 r).

Definition mpl_PlateCarree (cl : pyval) (h : heap) : (exn + pyval) * heap :=
  (inr (VRef (length h)), h ++ [OPlateCarree cl]).

Definition mpl_subplots (nr nc : Z) (subplot_kw : list (string * pyval))
    (h : heap) : (exn + pyval * pyval) * heap :=
  if nr <=? 0 then
    (inl (ValueError ("Number of rows must be a positive integer, not "
                        +:+ pretty nr)),
     h ++ [OFigure []])
  else if nc <=? 0 then
    (inl (ValueError ("Number of columns must be a positive integer, not "
                        +:+ pretty nc)),
     h ++ [OFigure []])
  else
    let r := Z.to_nat nr in
    let c := Z.to_nat nc in
    let fig := length h in
    let base := S fig in
    let proj := kw_get "projection" subplot_kw in
    let cells := grid r c (λ i j, OAxes (i, j) proj []) in
    let refs := grid r c (λ i j, VRef (base + i * c + j)%nat) in
    let h1 := h ++ OFigure (concat refs) :: concat cells in
    if (r =? 1)%nat && (c =? 1)%nat then
      (inr (VRef fig, VRef base), h1)
    else if (r =? 1)%nat || (c =? 1)%nat then
      (inr (VRef fig, VRef (length h1)), h1 ++ [ONdarray1 (concat refs)])
    else
      (inr (VRef fig, VRef (length h1)), h1 ++ [ONdarray2 refs]).

Definition mpl_flat (self : pyval) (h : heap) : (exn + list pyval) * heap :=
  match self with
  | VRef l =>
      match h !! l with
      | Some (ONdarray1 data) => (inr data, h)
      | Some (ONdarray2 rows) => (inr (concat rows), h)
      | _ => (inl (AttributeError "object has no attribute 'flat'"), h)
      end
  | _ => (inl (AttributeError "object has no attribute 'flat'"), h)
  end.

Definition add_artist (art : artist) (o : object) : object :=
  match o with
  | OAxes pos proj arts => OAxes pos proj (arts ++ [art])
  | _ => o
  end.

Definition is_axes (h : heap) (v : pyval) : bool :=
  match v with
  | VRef l => match h !! l with Some (OAxes _ _ _) => true | _ => false end
  | _ => false
  end.

Definition mpl_decorate (attr : string) (art : artist) (self : pyval) (h : heap)
  : (exn + pyval) * heap :=
  match self with
  | VRef l =>
      if is_axes h self then (inr VNone, alter (add_artist art) l h)
      else (inl (AttributeError attr), h)
  | _ => (inl (AttributeError attr), h)
  end.

Definition mpl : handler heap :=
  λ c,
    match c return heap → (exn + answer c) * heap with
    | PlateCarree cl => mpl_PlateCarree cl
    | subplots nr nc kw => mpl_subplots nr nc kw
    | flat self => mpl_flat self
    | gridlines self dl color alpha ls =>
        mpl_decorate "gridlines" (Gridliner dl color alpha ls) self
    | coastlines self _ lw =>
        mpl_decorate "coastlines" (CoastlineFeature (VStr "black") lw) self
    end.

(** The provider that fails nowhere of its own accord. *)
Definition no_fault {W} : call → W → option exn := λ _ _, None.

(** *** Reading the heap *)

Definition deref (h : heap) (v : pyval) : option object :=
  match v with
  | VRef l => h !! l
  | _ => None
  end.

Definition artists_of (h : heap) (v : pyval) : option (list artist) :=
  match deref h v with
  | Some (OAxes _ _ arts) => Some arts
  | _ => None
  end.

Definition projection_of (h : heap) (v : pyval) : option pyval :=
  match deref h v with
  | Some (OAxes _ proj _) => Some proj
  | _ => None
  end.

Definition position_of (h : heap) (v : pyval) : option (nat * nat) :=
  match deref h v with
  | Some (OAxes pos _ _) => Some pos
  | _ => None
  end.

(** The central meridian of a projection object. *)
Definition central_meridian (h : heap) (v : pyval) : option pyval :=
  match deref h v with
  | Some (OPlateCarree cl) => Some cl
  | _ => None
  end.

(** [numpy.shape]: a single Axes has the empty shape. *)
Definition shape (h : heap) (v : pyval) : option (list nat) :=
  match deref h v with
  | Some (OAxes _ _ _) => Some []
  | Some (ONdarray1 data) => Some [length data]
  | Some (ONdarray2 rows) => Some [length rows; length (default [] (head rows))]
  | _ => None
  end.

(** The surfaces behind what [plt.subplots] returned, in flattened order:
    the Axes itself, or the elements of the array. *)
Definition surfaces (h : heap) (v : pyval) : option (list pyval) :=
  match deref h v with
  | Some (OAxes _ _ _) => Some [v]
  | Some (ONdarray1 data) => Some data
  | Some (ONdarray2 rows) => Some (concat rows)
  | _ => None
  end.

(** [ax[i, j]] on a two-dimensional array. *)
Definition item2 (h : heap) (v : pyval) (i j : nat) : option pyval :=
  match deref h v with
  | Some (ONdarray2 rows) => row ← rows !! i; row !! j
  | _ => None
  end.

(** The decoration calls of a trace, in the order they were issued. *)
Definition decoration_calls (tr : list event) : list call :=
  filter (λ c, is_decoration c = true) (ev_call <$> tr).

(** What the function is to issue for a list of surfaces. *)
Definition decorations (a : kwargs) (ss : list pyval) : list call :=
  ss ≫= (λ s, [gridlines_call a s; coastlines_call a s]).

(** The artists a fully decorated surface carries. *)
Definition grid_art (a : kwargs) : artist :=
  Gridliner (draw_labels a) (gridlines_color a)
            (gridlines_alpha a) (gridlines_linestyle a).
Definition coast_art (a : kwargs) : artist :=
  CoastlineFeature (VStr "black") (coastlines_linewidths a).
Definition full_decoration (a : kwargs) : list artist :=
  [grid_art a; coast_art a].

(** The heap once the axes at [ls] have been decorated, one after the
    other. *)
Definition decorated (a : kwargs) (ls : list loc) (h : heap) : heap :=
  foldl (λ h l, alter (add_artist (coast_art a)) l
                  (alter (add_artist (grid_art a)) l h)) h ls.

(** One surface's worth of the function's work. *)
Definition decorate (a : kwargs) (s : pyval) : prog unit :=
  Vis (gridlines_call a s) (λ _, Vis (coastlines_call a s) (λ _, Ret tt)).

(** What follows [plt.subplots] in the function, for the [ax] it gave. *)
Definition decorate_result (a : kwargs) (ax : pyval) : prog unit :=
  if (nrows a =? 1) && (ncols a =? 1) then decorate a ax
  else Vis (flat ax) (λ axs, for_each axs (decorate a)).

(** [p] issues only calls that satisfy [P], whatever it is answered. *)
Fixpoint issues {R} (P : call → Prop) (p : prog R) : Prop :=
  match p with
  | Ret _ => True
  | Vis c k => P c ∧ ∀ x, issues P (k x)
  end.

(** The label selectors handed to the gridline calls of a trace. *)
Definition label_selector (c : call) : option pyval :=
  match c with
  | gridlines _ dl _ _ _ => Some dl
  | _ => None
  end.

Definition label_selectors (tr : list event) : list pyval :=
  omap label_selector (ev_call <$> tr).

Definition forwards_labels (a : kwargs) (c : call) : Prop :=
  ∀ dl, label_selector c = Some dl → dl = draw_labels a.

(** *** Where the double puts what one call constructs

    Starting from heap [h0], the projection lands at [length h0], the
    figure right after it, then the axes row by row, then the array when
    there is one. *)

Definition cells (a : kwargs) : nat :=
  (Z.to_nat (nrows a) * Z.to_nat (ncols a))%nat.

Definition single (a : kwargs) : bool := (nrows a =? 1) && (ncols a =? 1).

Definition crs_of (h0 : heap) : pyval := VRef (length h0).
Definition fig_of (h0 : heap) : pyval := VRef (S (length h0)).
Definition first_axes (h0 : heap) : loc := S (S (length h0)).

Definition axes_locs (a : kwargs) (h0 : heap) : list loc :=
  seq (first_axes h0) (cells a).

Definition ax_of (a : kwargs) (h0 : heap) : pyval :=
  if single a then VRef (first_axes h0)
  else VRef (first_axes h0 + cells a)%nat.

Definition subplots_call (a : kwargs) (crs : pyval) : call :=
  subplots (nrows a) (ncols a) [("projection", crs)].

Definition constructed (a : kwargs) (h0 : heap) : heap :=
  (mpl (subplots_call a (crs_of h0))
       (h0 ++ [OPlateCarree (central_longitude a)])).2.

(** The artists on the [i]-th surface once the first [k] surfaces are
    fully decorated and the [k]-th carries [part]. *)
Definition progress (a : kwargs) (k : nat) (part : list artist) (i : nat)
  : list artist :=
  if (i <? k)%nat then full_decoration a
  else if (i =? k)%nat then part else [].

(** A heap that holds what one call constructed, the [i]-th axes
    carrying the artists [arts i]. *)
Definition grid_state (a : kwargs) (h0 H : heap) (arts : nat → list artist)
  : Prop :=
  (∀ i, (i < cells a)%nat →
        H !! (first_axes h0 + i)%nat
        = Some (OAxes (i / Z.to_nat (ncols a), i mod Z.to_nat (ncols a))%nat
                      (crs_of h0) (arts i)))
  ∧ (∀ l, (l < first_axes h0 ∨ first_axes h0 + cells a ≤ l)%nat →
          H !! l = constructed a h0 !! l).

(** Keyword overrides of the grid shape and of the central longitude. *)
Definition with_grid (nr nc : Z) (a : kwargs) : kwargs := {|
  nrows := nr;
  ncols := nc;
  central_longitude := central_longitude a;
  draw_labels := draw_labels a;
  gridlines_color := gridlines_color a;
  gridlines_alpha := gridlines_alpha a;
  gridlines_linestyle := gridlines_linestyle a;
  coastlines_edgecolor := coastlines_edgecolor a;
  coastlines_linewidths := coastlines_linewidths a
|}.

Definition with_central_longitude (cl : pyval) (a : kwargs) : kwargs := {|
  nrows := nrows a;
  ncols := ncols a;
  central_longitude := cl;
  draw_labels := draw_labels a;
  gridlines_color := gridlines_color a;
  gridlines_alpha := gridlines_alpha a;
  gridlines_linestyle := gridlines_linestyle a;
  coastlines_edgecolor := coastlines_edgecolor a;
  coastlines_linewidths := coastlines_linewidths a
|}.

Definition with_draw_labels (dl : pyval) (a : kwargs) : kwargs := {|
  nrows := nrows a;
  ncols := ncols a;
  central_longitude := central_longitude a;
  draw_labels := dl;
  gridlines_color := gridlines_color a;
  gridlines_alpha := gridlines_alpha a;
  gridlines_linestyle := gridlines_linestyle a;
  coastlines_edgecolor := coastlines_edgecolor a;
  coastlines_linewidths := coastlines_linewidths a
|}.

(** The projection constructions of a trace. *)
Definition is_projection (c : call) : bool :=
  match c with
  | PlateCarree _ => true
  | _ => false
  end.

Definition projection_calls (tr : list event) : list call :=
  filter (λ c, is_projection c = true) (ev_call <$> tr).

(** A provider that accepts whatever it is given. *)
Definition lenient : handler unit :=
  λ c,
    match c return unit → (exn + answer c) * unit with
    | PlateCarree _ => λ w, (inr VNone, w)
    | subplots _ _ _ => λ w, (inr (VNone, VNone), w)
    | flat _ => λ w, (inr [], w)
    | gridlines _ _ _ _ _ => λ w, (inr VNone, w)
    | coastlines _ _ _ => λ w, (inr VNone, w)
    end.

(** The heap after import with one more object on it: the mapping
    [{"bottom": "x", "left": "y"}], at location 1. *)
Definition heap_with_mapping : heap :=
  import_heap ++ [ODict [(VStr "bottom", VStr "x"); (VStr "left", VStr "y")]].

(** A provider whose coastlines call fails on the surface at [l]. *)
Definition coastlines_fault (l : loc) : call → heap → option exn :=
  λ c _,
    match c with
    | coastlines (VRef l') _ _ =>
        if (l' =? l)%nat then Some (ValueError "coastlines") else None
    | _ => None
    end.

(** The artists the surface of a failed decoration call is left with. *)
Definition left_on_failure (a : kwargs) (c : call) : list artist :=
  match c with
  | coastlines _ _ _ => [grid_art a]
  | _ => []
  end.

(** *** Reading a trace *)

(** The surfaces the gridlines calls of a trace went to, in order. *)
Definition gridlines_receiver (c : call) : option pyval :=
  match c with
  | gridlines s _ _ _ _ => Some s
  | _ => None
  end.

Definition gridlined (tr : list event) : list pyval :=
  omap gridlines_receiver (ev_call <$> tr).

(** What [plt.subplots] answered, and what [ax.flat] yielded, if the
    trace has such an answer. *)
Definition subplots_answered (ev : event) : option (pyval * pyval) :=
  match ev with
  | Ev (subplots _ _ _) (inr fa) => Some fa
  | _ => None
  end.

Definition flat_answered (ev : event) : option (list pyval) :=
  match ev with
  | Ev (flat _) (inr ss) => Some ss
  | _ => None
  end.

Definition subplots_answer (tr : list event) : option (pyval * pyval) :=
  head (omap subplots_answered tr).

Definition flat_answer (tr : list event) : option (list pyval) :=
  head (omap flat_answered tr).

Definition is_flat (c : call) : bool :=
  match c with
  | flat _ => true
  | _ => false
  end.

(** The surfaces the function is to decorate, as far as the trace tells:
    with a 1x1 request the object [plt.subplots] answered, otherwise the
    elements [ax.flat] yielded. *)
Definition targets (a : kwargs) (tr : list event) : list pyval :=
  if single a then
    match subplots_answer tr with
    | Some (_, ax) => [ax]
    | None => []
    end
  else default [] (flat_answer tr).

(** The calls the function may issue for the arguments [a]. *)
Definition own_call (a : kwargs) (c : call) : Prop :=
  match c with
  | PlateCarree cl => cl = central_longitude a
  | subplots nr nc kw =>
      nr = nrows a ∧ nc = ncols a ∧ ∃ crs, kw = [("projection", crs)]
  | flat _ => True
  | gridlines _ dl co al ls =>
      dl = draw_labels a ∧ co = gridlines_color a
      ∧ al = gridlines_alpha a ∧ ls = gridlines_linestyle a
  | coastlines _ ec lw =>
      ec = coastlines_edgecolor a ∧ lw = coastlines_linewidths a
  end.

(** Two calls, one after the other, both results kept. *)
Definition two_calls (a1 a2 : kwargs)
  : prog ((pyval * pyval) * (pyval * pyval)) :=
  r1 ← quick_draw_spatial_basemap a1;
  r2 ← quick_draw_spatial_basemap a2;
  mret (r1, r2).

(** * Properties *)

(** ** Running programs *)

Section Run.
Context {W : Type} (h : handler W).

Lemma run_bind_inl {A B} (p : prog A) (f : A → prog B) w e :
  res (run h p w) = inl e →
  run h (bind p f) w
  = Outcome (inl e) (world (run h p w)) (trace (run h p w)).
Proof.
  revert w. induction p as [r | c k IH]; intros w; simpl.
  - discriminate.
  - destruct (h c w) as [[e' | x] w']; simpl.
    + by intros [= ->].
    + intros He. by rewrite (IH x w' He).
Qed.

Lemma run_bind_inr {A B} (p : prog A) (f : A → prog B) w a :
  res (run h p w) = inr a →
  run h (bind p f) w
  = Outcome (res (run h (f a) (world (run h p w))))
            (world (run h (f a) (world (run h p w))))
            (trace (run h p w) ++ trace (run h (f a) (world (run h p w)))).
Proof.
  revert w. induction p as [r | c k IH]; intros w; simpl.
  - intros [= ->]. by destruct (run h (f a) w).
  - destruct (h c w) as [[e' | x] w']; simpl.
    + discriminate.
    + intros He. by rewrite (IH x w' He).
Qed.

(** A program has no [raise] of its own: a run ends in an exception
    exactly when its last call raised it. *)
Lemma run_inl {R} (p : prog R) w e :
  res (run h p w) = inl e →
  ∃ tr c, trace (run h p w) = tr ++ [Ev c (inl e)]
          ∧ Forall answered tr
          ∧ ∃ w', h c w' = (inl e, world (run h p w)).
Proof.
  revert w. induction p as [r | c k IH]; intros w; simpl.
  - discriminate.
  - destruct (h c w) as [[e' | x] w'] eqn:Hc; simpl.
    + intros [= ->]. exists [], c. split_and!; [done | constructor | eauto].
    + intros He. destruct (IH x w' He) as (tr & c' & -> & Htr & Hw).
      exists (Ev c (inr x) :: tr), c'. split_and!; [done | | done].
      constructor; [done | done].
Qed.

Lemma run_inr {R} (p : prog R) w r :
  res (run h p w) = inr r → Forall answered (trace (run h p w)).
Proof.
  revert w. induction p as [r' | c k IH]; intros w; simpl.
  - constructor.
  - destruct (h c w) as [[e' | x] w']; simpl; [discriminate |].
    intros He. constructor; [done | by apply IH].
Qed.

(** A provider that answers every call makes every program return. *)
Lemma run_total {R} (p : prog R) w :
  (∀ c w, ∃ x w', h c w = (inr x, w')) → ∃ r, res (run h p w) = inr r.
Proof.
  intros Hh. revert w. induction p as [r | c k IH]; intros w; simpl.
  - eauto.
  - destruct (Hh c w) as (x & w' & ->). simpl. apply IH.
Qed.

(** Whatever every call of the provider preserves, a run preserves. *)
Lemma run_preserves {R} (I : W → Prop) (p : prog R) w :
  (∀ c w, I w → I (h c w).2) → I w → I (world (run h p w)).
Proof.
  intros Hh. revert w. induction p as [r | c k IH]; intros w Hw; simpl.
  - done.
  - specialize (Hh c w Hw). destruct (h c w) as [[e' | x] w']; simpl in *.
    + done.
    + by apply IH.
Qed.
End Run.

Lemma run_bind_ret {W A B} (h : handler W) (p : prog A) (b : B) w :
  run h (bind p (λ _, Ret b)) w
  = Outcome (match res (run h p w) with inl e => inl e | inr _ => inr b end)
            (world (run h p w)) (trace (run h p w)).
Proof.
  revert w. induction p as [r | c k IH]; intros w; simpl; [done |].
  destruct (h c w) as [[e | x] w']; simpl; [done |]. by rewrite IH.
Qed.

Lemma run_ext {W R} (h1 h2 : handler W) (p : prog R) w :
  (∀ c w, h1 c w = h2 c w) → run h1 p w = run h2 p w.
Proof.
  intros Hh. revert w. induction p as [r | c k IH]; intros w; simpl.
  - done.
  - rewrite Hh. destruct (h2 c w) as [[e | x] w']; [done |]. by rewrite IH.
Qed.

(** ** The calls a program can issue *)

Lemma issues_bind {A B} (P : call → Prop) (p : prog A) (f : A → prog B) :
  issues P p → (∀ a, issues P (f a)) → issues P (bind p f).
Proof.
  intros Hp Hf. induction p as [r | c k IH]; simpl in *; [done |].
  destruct Hp as [Hc Hk]. split; [done |]. intros x. by apply IH.
Qed.

Lemma issues_for_each {A} (P : call → Prop) (xs : list A) body :
  (∀ x, issues P (body x)) → issues P (for_each xs body).
Proof.
  intros Hb. induction xs as [| x xs IH]; simpl; [done |].
  by apply issues_bind.
Qed.

Lemma run_issues {W R} (h : handler W) (P : call → Prop) (p : prog R) w :
  issues P p → Forall (λ ev, P (ev_call ev)) (trace (run h p w)).
Proof.
  revert w. induction p as [r | c k IH]; intros w; simpl.
  - constructor.
  - intros [Hc Hk]. destruct (h c w) as [[e | x] w']; simpl.
    + by repeat constructor.
    + constructor; [done | by apply IH].
Qed.

(** ** The shape of a call to the function, against any provider *)

Section Anatomy.
Context {W : Type} (h : handler W) (a : kwargs).

Lemma run_decorate s w :
  run h (decorate a s) w
  = match h (gridlines_call a s) w with
    | (inl e, w1) => Outcome (inl e) w1 [Ev (gridlines_call a s) (inl e)]
    | (inr x, w1) =>
        match h (coastlines_call a s) w1 with
        | (inl e, w2) =>
            Outcome (inl e) w2
              [Ev (gridlines_call a s) (inr x); Ev (coastlines_call a s) (inl e)]
        | (inr y, w2) =>
            Outcome (inr tt) w2
              [Ev (gridlines_call a s) (inr x); Ev (coastlines_call a s) (inr y)]
        end
    end.
Proof.
  simpl. destruct (h (gridlines_call a s) w) as [[e | x] w1]; [done |].
  simpl. by destruct (h (coastlines_call a s) w1) as [[e | y] w2].
Qed.

Lemma run_quick_draw w :
  run h (quick_draw_spatial_basemap a) w
  = match h (PlateCarree (central_longitude a)) w with
    | (inl e, w1) =>
        Outcome (inl e) w1 [Ev (PlateCarree (central_longitude a)) (inl e)]
    | (inr crs, w1) =>
        let sp := subplots_call a crs in
        match h sp w1 with
        | (inl e, w2) =>
            Outcome (inl e) w2
              [Ev (PlateCarree (central_longitude a)) (inr crs); Ev sp (inl e)]
        | (inr fa, w2) =>
            let o := run h (decorate_result a fa.2) w2 in
            Outcome (match res o with inl e => inl e | inr _ => inr fa end)
                    (world o)
                    (Ev (PlateCarree (central_longitude a)) (inr crs)
                       :: Ev sp (inr fa) :: trace o)
        end
    end.
Proof.
  change (quick_draw_spatial_basemap a)
    with (Vis (PlateCarree (central_longitude a)) (λ crs,
            Vis (subplots (nrows a) (ncols a) [("projection", crs)])
                (λ fa, match fa with
                       | (fig, ax) =>
                           bind (decorate_result a ax) (λ _, Ret (fig, ax))
                       end))).
  cbn [run].
  destruct (h (PlateCarree (central_longitude a)) w) as [[e | crs] w1];
    [done |].
  cbn [run]. cbv zeta.
  change (h (subplots _ _ _) w1) with (h (subplots_call a crs) w1).
  destruct (h (subplots_call a crs) w1) as [[e | [fig ax]] w2]; [done |].
  rewrite run_bind_ret. done.
Qed.

Lemma run_quick_draw_subplots_fails w crs w1 e w2 :
  h (PlateCarree (central_longitude a)) w = (inr crs, w1) →
  h (subplots_call a crs) w1 = (inl e, w2) →
  run h (quick_draw_spatial_basemap a) w
  = Outcome (inl e) w2
      [Ev (PlateCarree (central_longitude a)) (inr crs);
       Ev (subplots_call a crs) (inl e)].
Proof. intros H1 H2. rewrite run_quick_draw, H1. cbv zeta. by rewrite H2. Qed.

Lemma issues_decorate_result (P : call → Prop) ax :
  P (flat ax) →
  (∀ s, P (gridlines_call a s)) →
  (∀ s, P (coastlines_call a s)) →
  issues P (decorate_result a ax).
Proof.
  intros Hfl Hg Hc. unfold decorate_result.
  assert (∀ s, issues P (decorate a s)) as Hd.
  { intros s. simpl. split; [apply Hg |]. intros _. split; [apply Hc | done]. }
  destruct (_ && _); [apply Hd |].
  simpl. split; [done |]. intros axs. by apply issues_for_each.
Qed.

Lemma issues_quick_draw (P : call → Prop) :
  (∀ cl, P (PlateCarree cl)) →
  (∀ nr nc kw, P (subplots nr nc kw)) →
  (∀ s, P (flat s)) →
  (∀ s, P (gridlines_call a s)) →
  (∀ s, P (coastlines_call a s)) →
  issues P (quick_draw_spatial_basemap a).
Proof.
  intros Hpc Hsp Hfl Hg Hc. simpl. split; [done |]. intros crs.
  split; [done |]. intros [fig ax].
  change (issues P (bind (decorate_result a ax) (λ _, Ret (fig, ax)))).
  apply issues_bind; [| done]. unfold decorate_result.
  assert (∀ s, issues P (decorate a s)) as Hd.
  { intros s. simpl. split; [apply Hg |]. intros _. split; [apply Hc | done]. }
  destruct (_ && _); [apply Hd |].
  simpl. split; [done |]. intros axs. by apply issues_for_each.
Qed.
End Anatomy.

(** ** Tables *)

Lemma grid_rows {A} (c s r : nat) (f : nat → nat → A) :
  (0 < c)%nat →
  concat (map (λ i, map (f i) (seq 0 c)) (seq s r))
  = map (λ k, f (k / c) (k mod c))%nat (seq (s * c) (r * c)).
Proof.
  intros Hc. revert s. induction r as [| r IH]; intros s; [done |].
  cbn [seq map concat]. rewrite IH.
  replace (S r * c)%nat with (c + r * c)%nat by lia.
  rewrite seq_app, map_app. f_equal; [| f_equal; f_equal; lia].
  rewrite <- (Nat.add_0_r (s * c)) at 1. rewrite <- fmap_add_seq.
  change (Nat.add (s * c) <$> seq 0 c) with (map (Nat.add (s * c)) (seq 0 c)).
  rewrite map_map. apply map_ext_in.
  intros j Hj. apply in_seq in Hj.
  assert ((s * c + j) / c = s)%nat as ->.
  { symmetry. apply (Nat.div_unique _ _ _ j); lia. }
  assert ((s * c + j) mod c = j)%nat as ->.
  { symmetry. apply (Nat.mod_unique _ _ s); lia. }
  done.
Qed.

Lemma concat_grid {A} (r c : nat) (f : nat → nat → A) :
  (0 < c)%nat →
  concat (grid r c f) = map (λ k, f (k / c) (k mod c))%nat (seq 0 (r * c)).
Proof. intros Hc. unfold grid. by rewrite (grid_rows c 0 r f Hc). Qed.

Lemma concat_grid_refs (r c base : nat) :
  (0 < c)%nat →
  concat (grid r c (λ i j, VRef (base + i * c + j)%nat))
  = VRef <$> seq base (r * c).
Proof.
  intros Hc. rewrite concat_grid by done.
  replace (seq base (r * c)) with (Nat.add base <$> seq 0 (r * c))
    by (rewrite fmap_add_seq; f_equal; lia).
  rewrite <- list_fmap_compose. apply map_ext.
  intros k. simpl. f_equal.
  pose proof (Nat.div_mod_eq k c). lia.
Qed.

Lemma length_grid {A} (r c : nat) (f : nat → nat → A) : length (grid r c f) = r.
Proof. unfold grid. by rewrite length_map, length_seq. Qed.

Lemma head_grid {A} (r c : nat) (f : nat → nat → A) :
  (0 < r)%nat → length (default [] (head (grid r c f))) = c.
Proof.
  intros Hr. unfold grid. destruct r as [| r]; [lia |].
  simpl. by rewrite length_map, length_seq.
Qed.

Lemma grid_lookup {A} (r c i j : nat) (f : nat → nat → A) :
  (i < r)%nat → (j < c)%nat →
  (row ← grid r c f !! i; row !! j) = Some (f i j).
Proof.
  intros Hi Hj. unfold grid.
  change (map ?g ?l) with (g <$> l).
  rewrite list_lookup_fmap, lookup_seq_lt by done. simpl.
  change (map ?g ?l) with (g <$> l).
  by rewrite list_lookup_fmap, lookup_seq_lt.
Qed.

(** ** The double: construction *)

Lemma mpl_subplots_invalid nr nc kw (h : heap) :
  nr ≤ 0 ∨ nc ≤ 0 →
  ∃ msg, mpl_subplots nr nc kw h = (inl (ValueError msg), h ++ [OFigure []]).
Proof.
  intros Hbad. unfold mpl_subplots.
  destruct (Z.leb_spec nr 0); [by eexists |].
  destruct (Z.leb_spec nc 0); [by eexists | lia].
Qed.

Lemma mpl_subplots_valid nr nc kw (h : heap) :
  1 ≤ nr → 1 ≤ nc →
  let r := Z.to_nat nr in
  let c := Z.to_nat nc in
  let n := (r * c)%nat in
  let base := S (length h) in
  let made :=
    h ++ OFigure (VRef <$> seq base n)
      :: ((λ k, OAxes (k / c, k mod c)%nat (kw_get "projection" kw) [])
            <$> seq 0 n) in
  mpl_subplots nr nc kw h
  = if (r =? 1)%nat && (c =? 1)%nat then
      (inr (VRef (length h), VRef base), made)
    else
      (inr (VRef (length h), VRef (base + n)%nat),
       made ++ [if (r =? 1)%nat || (c =? 1)%nat
                then ONdarray1 (VRef <$> seq base n)
                else ONdarray2 (grid r c (λ i j, VRef (base + i * c + j)%nat))]).
Proof.
  intros Hr Hc r c n base made. unfold mpl_subplots.
  destruct (Z.leb_spec nr 0); [lia |].
  destruct (Z.leb_spec nc 0); [lia |].
  fold r c base.
  assert (0 < c)%nat as Hc' by (unfold c; lia).
  rewrite concat_grid_refs, concat_grid by done.
  fold n. change (map ?g ?l) with (g <$> l). fold made.
  assert (length made = (base + n)%nat) as ->.
  { unfold made. rewrite length_app. simpl.
    rewrite length_fmap, length_seq. unfold base. lia. }
  destruct (_ && _); [done |]. by destruct (_ || _).
Qed.

(** ** The double: decoration *)

Lemma is_axes_alter art l (h : heap) v :
  is_axes (alter (add_artist art) l h) v = is_axes h v.
Proof.
  destruct v as [| | | | | l0]; try done. unfold is_axes.
  destruct (decide (l = l0)) as [-> | Hne].
  - rewrite list_lookup_alter_eq. by destruct (h !! l0) as [[] |].
  - by rewrite list_lookup_alter_ne.
Qed.

Lemma Forall_is_axes_alter art l (h : heap) (ls : list loc) :
  Forall (λ l', is_axes h (VRef l') = true) ls →
  Forall (λ l', is_axes (alter (add_artist art) l h) (VRef l') = true) ls.
Proof. intros Hls. eapply Forall_impl; [done |]. intros l' Hl'. by rewrite is_axes_alter. Qed.

Section Decoration.
Context (f : call → heap → option exn) (a : kwargs).

Lemma inject_gridlines l (h : heap) :
  is_axes h (VRef l) = true →
  inject f mpl (gridlines_call a (VRef l)) h
  = match f (gridlines_call a (VRef l)) h with
    | Some e => (inl e, h)
    | None => (inr VNone, alter (add_artist (grid_art a)) l h)
    end.
Proof.
  intros Hax. unfold inject. destruct (f _ h); [done |].
  change (mpl (gridlines_call a (VRef l)) h)
    with (mpl_decorate "gridlines" (grid_art a) (VRef l) h).
  unfold mpl_decorate. by rewrite Hax.
Qed.

Lemma inject_coastlines l (h : heap) :
  is_axes h (VRef l) = true →
  inject f mpl (coastlines_call a (VRef l)) h
  = match f (coastlines_call a (VRef l)) h with
    | Some e => (inl e, h)
    | None => (inr VNone, alter (add_artist (coast_art a)) l h)
    end.
Proof.
  intros Hax. unfold inject. destruct (f _ h); [done |].
  change (mpl (coastlines_call a (VRef l)) h)
    with (mpl_decorate "coastlines" (coast_art a) (VRef l) h).
  unfold mpl_decorate. by rewrite Hax.
Qed.

(** Decorating the axes at [ls] in turn: either all of them are done,
    or the provider failed at the [k]-th one, on its gridlines or on
    its coastlines, and the run stopped there. *)
Lemma run_decorate_loop (ls : list loc) (h : heap) :
  Forall (λ l, is_axes h (VRef l) = true) ls →
  let o := run (inject f mpl) (for_each (VRef <$> ls) (decorate a)) h in
  (res o = inr tt
   ∧ world o = decorated a ls h
   ∧ ev_call <$> trace o = decorations a (VRef <$> ls))
  ∨ ∃ k l e,
      ls !! k = Some l ∧ res o = inl e ∧
      let hk := decorated a (take k ls) h in
      let hg := alter (add_artist (grid_art a)) l hk in
      let done := decorations a (VRef <$> take k ls) in
      (f (gridlines_call a (VRef l)) hk = Some e
       ∧ world o = hk
       ∧ ev_call <$> trace o = done ++ [gridlines_call a (VRef l)])
      ∨ (f (gridlines_call a (VRef l)) hk = None
         ∧ f (coastlines_call a (VRef l)) hg = Some e
         ∧ world o = hg
         ∧ ev_call <$> trace o
           = done ++ [gridlines_call a (VRef l); coastlines_call a (VRef l)]).
Proof.
  revert h. induction ls as [| l ls IH]; intros h Hax.
  { left. done. }
  apply Forall_cons in Hax as [Hl Hls].
  cbn [fmap list_fmap for_each].
  pose proof (run_decorate (inject f mpl) a (VRef l) h) as Hstep.
  rewrite inject_gridlines in Hstep by done.
  destruct (f (gridlines_call a (VRef l)) h) as [e |] eqn:Hfg.
  { right. exists 0%nat, l, e. split; [done |].
    rewrite (run_bind_inl _ _ _ _ e) by (by rewrite Hstep).
    rewrite Hstep. split; [done |]. left. done. }
  set (hg := alter (add_artist (grid_art a)) l h) in *.
  assert (is_axes hg (VRef l) = true) as Hlg
    by (unfold hg; by rewrite is_axes_alter).
  rewrite inject_coastlines in Hstep by done.
  destruct (f (coastlines_call a (VRef l)) hg) as [e |] eqn:Hfc.
  { right. exists 0%nat, l, e. split; [done |].
    rewrite (run_bind_inl _ _ _ _ e) by (by rewrite Hstep).
    rewrite Hstep. split; [done |]. right. done. }
  set (hc := alter (add_artist (coast_art a)) l hg) in *.
  rewrite (run_bind_inr _ _ _ _ tt) by (by rewrite Hstep).
  rewrite Hstep. cbn [res world trace].
  assert (Forall (λ l', is_axes hc (VRef l') = true) ls) as Hls'.
  { unfold hc, hg. by do 2 apply Forall_is_axes_alter. }
  destruct (IH hc Hls') as [(Hres & Hw & Htr) | (k & l' & e & Hk & Hres & Hcase)].
  - left. split_and!; [done | done |].
    cbn [app fmap list_fmap]. by rewrite Htr.
  - right. exists (S k), l', e. split; [done |]. split; [done |].
    cbn [take fmap list_fmap app].
    destruct Hcase as [(Hf & Hw & Htr) | (Hf1 & Hf2 & Hw & Htr)].
    + left. split_and!; [done | done |]. by rewrite Htr.
    + right. split_and!; [done | done | done |]. by rewrite Htr.
Qed.
End Decoration.

Section Decorated.
Context (a : kwargs).

Lemma decorated_cons l ls (h : heap) :
  decorated a (l :: ls) h
  = decorated a ls (alter (add_artist (coast_art a)) l
                      (alter (add_artist (grid_art a)) l h)).
Proof. done. Qed.

Lemma length_decorated ls (h : heap) : length (decorated a ls h) = length h.
Proof.
  revert h. induction ls as [| l ls IH]; intros h; [done |].
  by rewrite decorated_cons, IH, !length_alter.
Qed.

(** Decoration touches the decorated axes only. *)
Lemma decorated_lookup_notin ls (h : heap) l :
  l ∉ ls → decorated a ls h !! l = h !! l.
Proof.
  revert h. induction ls as [| l' ls IH]; intros h Hl; [done |].
  apply not_elem_of_cons in Hl as [Hne Hl].
  rewrite decorated_cons, IH by done.
  by rewrite !list_lookup_alter_ne.
Qed.

(** A decorated axes has gained its gridliner, then its coastlines. *)
Lemma decorated_lookup_in ls (h : heap) l :
  NoDup ls → l ∈ ls →
  decorated a ls h !! l
  = add_artist (coast_art a) <$> (add_artist (grid_art a) <$> h !! l).
Proof.
  revert h. induction ls as [| l' ls IH]; intros h Hnd Hl.
  { by apply elem_of_nil in Hl. }
  apply NoDup_cons in Hnd as [Hl' Hnd].
  rewrite decorated_cons.
  destruct (decide (l = l')) as [-> | Hne].
  - rewrite decorated_lookup_notin by done.
    by rewrite !list_lookup_alter_eq.
  - apply elem_of_cons in Hl as [? | Hl]; [done |].
    rewrite IH by done. by rewrite !list_lookup_alter_ne.
Qed.

Lemma decorations_app ss1 ss2 :
  decorations a (ss1 ++ ss2) = decorations a ss1 ++ decorations a ss2.
Proof. unfold decorations. apply bind_app. Qed.

Lemma length_decorations ss : length (decorations a ss) = (2 * length ss)%nat.
Proof.
  induction ss as [| s ss IH]; [done |].
  change (decorations a (s :: ss))
    with (gridlines_call a s :: coastlines_call a s :: decorations a ss).
  simpl in *. lia.
Qed.

Lemma decorations_lookup ss k s :
  ss !! k = Some s →
  decorations a ss !! (2 * k)%nat = Some (gridlines_call a s)
  ∧ decorations a ss !! (2 * k + 1)%nat = Some (coastlines_call a s).
Proof.
  revert k. induction ss as [| s' ss IH]; intros k Hk; [done |].
  change (decorations a (s' :: ss))
    with (gridlines_call a s' :: coastlines_call a s' :: decorations a ss).
  destruct k as [| k].
  - injection Hk as ->. done.
  - replace (2 * S k)%nat with (S (S (2 * k))) by lia.
    replace (S (S (2 * k)) + 1)%nat with (S (S (2 * k + 1))) by lia.
    apply (IH k Hk).
Qed.

Lemma decoration_calls_decorations (tr : list event) ss :
  ev_call <$> tr = decorations a ss → decoration_calls tr = decorations a ss.
Proof.
  intros Htr. unfold decoration_calls. rewrite Htr. clear Htr.
  induction ss as [| s ss IH]; [done |].
  change (decorations a (s :: ss))
    with (gridlines_call a s :: coastlines_call a s :: decorations a ss).
  rewrite !filter_cons_True by done. by rewrite IH.
Qed.
End Decorated.

(** ** The double: one call, step by step *)

Section Construction.
Context (a : kwargs) (h0 : heap).
Context (Hr : 1 ≤ nrows a) (Hc : 1 ≤ ncols a).

Lemma single_cells : single a = true → cells a = 1%nat.
Proof.
  unfold single, cells. intros [H1 H2]%andb_true_iff.
  apply Z.eqb_eq in H1, H2. by rewrite H1, H2.
Qed.

Lemma single_nat :
  ((Z.to_nat (nrows a) =? 1)%nat && (Z.to_nat (ncols a) =? 1)%nat)
  = single a.
Proof.
  unfold single. f_equal.
  - destruct (Z.eqb_spec (nrows a) 1) as [-> | Hne]; [done |].
    apply Nat.eqb_neq. lia.
  - destruct (Z.eqb_spec (ncols a) 1) as [-> | Hne]; [done |].
    apply Nat.eqb_neq. lia.
Qed.

Lemma cells_pos : (0 < cells a)%nat.
Proof. unfold cells. nia. Qed.

Lemma subplots_constructed :
  mpl (subplots_call a (crs_of h0))
      (h0 ++ [OPlateCarree (central_longitude a)])
  = (inr (fig_of h0, ax_of a h0), constructed a h0).
Proof.
  unfold constructed. change (mpl (subplots_call a (crs_of h0)))
    with (mpl_subplots (nrows a) (ncols a) [("projection", crs_of h0)]).
  rewrite (mpl_subplots_valid _ _ _ _ Hr Hc). rewrite single_nat.
  unfold fig_of, ax_of, first_axes, cells.
  rewrite length_app, Nat.add_1_r. simpl length.
  by destruct (single a).
Qed.

(** The heap right after construction. *)
Lemma constructed_eq :
  constructed a h0
  = (h0 ++ [OPlateCarree (central_longitude a)])
      ++ OFigure (VRef <$> axes_locs a h0)
      :: ((λ k, OAxes (k / Z.to_nat (ncols a), k mod Z.to_nat (ncols a))%nat
                      (crs_of h0) [])
            <$> seq 0 (cells a))
      ++ (if single a then []
          else [if (Z.to_nat (nrows a) =? 1)%nat || (Z.to_nat (ncols a) =? 1)%nat
                then ONdarray1 (VRef <$> axes_locs a h0)
                else ONdarray2 (grid (Z.to_nat (nrows a)) (Z.to_nat (ncols a))
                                  (λ i j, VRef (first_axes h0
                                                + i * Z.to_nat (ncols a) + j)%nat))]).
Proof.
  unfold constructed. change (mpl (subplots_call a (crs_of h0)))
    with (mpl_subplots (nrows a) (ncols a) [("projection", crs_of h0)]).
  rewrite (mpl_subplots_valid _ _ _ _ Hr Hc). rewrite single_nat.
  unfold axes_locs, first_axes, cells.
  rewrite length_app, Nat.add_1_r. simpl length.
  change (kw_get "projection" [("projection", crs_of h0)]) with (crs_of h0).
  destruct (single a); simpl.
  - by rewrite app_nil_r.
  - by rewrite <- !app_assoc.
Qed.

Lemma constructed_old l obj :
  h0 !! l = Some obj → constructed a h0 !! l = Some obj.
Proof.
  intros Hl. rewrite constructed_eq, <- app_assoc.
  by apply lookup_app_l_Some.
Qed.

Lemma constructed_crs :
  constructed a h0 !! length h0 = Some (OPlateCarree (central_longitude a)).
Proof.
  rewrite constructed_eq. apply lookup_app_l_Some.
  rewrite lookup_app_r by done. by rewrite Nat.sub_diag.
Qed.

Lemma constructed_fig :
  constructed a h0 !! S (length h0) = Some (OFigure (VRef <$> axes_locs a h0)).
Proof.
  rewrite constructed_eq. rewrite lookup_app_r by (rewrite length_app; simpl; lia).
  rewrite length_app; simpl.
  match goal with |- _ !! ?i = _ => by replace i with 0%nat by lia end.
Qed.

Lemma constructed_axes k :
  (k < cells a)%nat →
  constructed a h0 !! (first_axes h0 + k)%nat
  = Some (OAxes (k / Z.to_nat (ncols a), k mod Z.to_nat (ncols a))%nat
                (crs_of h0) []).
Proof.
  intros Hk. rewrite constructed_eq. unfold first_axes.
  rewrite lookup_app_r by (rewrite length_app; simpl; lia).
  rewrite length_app; simpl.
  match goal with |- _ !! ?i = _ => replace i with (S k) by lia end.
  change ((?x :: ?l) !! S k) with (l !! k).
  rewrite lookup_app_l by (by rewrite length_fmap, length_seq).
  by rewrite list_lookup_fmap, lookup_seq_lt.
Qed.

Lemma constructed_array :
  single a = false →
  constructed a h0 !! (first_axes h0 + cells a)%nat
  = Some (if (Z.to_nat (nrows a) =? 1)%nat || (Z.to_nat (ncols a) =? 1)%nat
          then ONdarray1 (VRef <$> axes_locs a h0)
          else ONdarray2 (grid (Z.to_nat (nrows a)) (Z.to_nat (ncols a))
                            (λ i j, VRef (first_axes h0
                                          + i * Z.to_nat (ncols a) + j)%nat))).
Proof.
  intros Hs. rewrite constructed_eq, Hs. unfold first_axes.
  rewrite lookup_app_r by (rewrite length_app; simpl; lia).
  rewrite length_app; simpl.
  match goal with |- _ !! ?i = _ => replace i with (S (cells a)) by lia end.
  change ((?x :: ?l) !! S ?k) with (l !! k).
  rewrite lookup_app_r by (by rewrite length_fmap, length_seq).
  rewrite length_fmap, length_seq.
  by rewrite Nat.sub_diag.
Qed.

Lemma axes_locs_axes (h : heap) :
  (∀ k, (k < cells a)%nat →
        is_axes h (VRef (first_axes h0 + k)%nat) = true) →
  Forall (λ l, is_axes h (VRef l) = true) (axes_locs a h0).
Proof.
  intros Hh. apply Forall_forall. intros l Hl.
  apply elem_of_seq in Hl.
  replace l with (first_axes h0 + (l - first_axes h0))%nat by lia.
  apply Hh. lia.
Qed.

Lemma constructed_is_axes :
  Forall (λ l, is_axes (constructed a h0) (VRef l) = true) (axes_locs a h0).
Proof.
  apply axes_locs_axes. intros k Hk. unfold is_axes.
  by rewrite constructed_axes.
Qed.

(** What [ax.flat] yields on the constructed array. *)
Lemma constructed_flat :
  single a = false →
  mpl (flat (ax_of a h0)) (constructed a h0)
  = (inr (VRef <$> axes_locs a h0), constructed a h0).
Proof.
  intros Hs. unfold ax_of. rewrite Hs.
  change (mpl (flat ?v) ?h) with (mpl_flat v h). unfold mpl_flat.
  rewrite (constructed_array Hs).
  destruct (_ || _); [done |].
  rewrite concat_grid_refs; [done |]. lia.
Qed.
End Construction.

Lemma run_for_each_one {W A} (h : handler W) (x : A) body w :
  run h (for_each [x] body) w = run h (body x) w.
Proof.
  cbn [for_each]. rewrite run_bind_ret.
  destruct (run h (body x) w) as [[e | []] w' tr]; done.
Qed.

Section Call.
Context (f : call → heap → option exn) (a : kwargs) (h0 : heap).
Context (Hr : 1 ≤ nrows a) (Hc : 1 ≤ ncols a).

(** The calls that come before the decorations. *)
Lemma run_decorate_result :
  run (inject f mpl) (decorate_result a (ax_of a h0)) (constructed a h0)
  = if single a then
      run (inject f mpl) (for_each (VRef <$> axes_locs a h0) (decorate a))
          (constructed a h0)
    else
      match f (flat (ax_of a h0)) (constructed a h0) with
      | Some e =>
          Outcome (inl e) (constructed a h0) [Ev (flat (ax_of a h0)) (inl e)]
      | None =>
          let o := run (inject f mpl)
                       (for_each (VRef <$> axes_locs a h0) (decorate a))
                       (constructed a h0) in
          Outcome (res o) (world o)
                  (Ev (flat (ax_of a h0)) (inr (VRef <$> axes_locs a h0))
                     :: trace o)
      end.
Proof.
  unfold decorate_result. fold (single a).
  destruct (single a) eqn:Hs.
  - unfold axes_locs, ax_of. rewrite (single_cells a Hs), Hs.
    cbn [seq fmap list_fmap]. by rewrite run_for_each_one.
  - cbn [run]. unfold inject at 1.
    destruct (f (flat (ax_of a h0)) (constructed a h0)) as [e |]; [done |].
    by rewrite (constructed_flat a h0 Hr Hc Hs).
Qed.

Lemma run_inject_mpl :
  run (inject f mpl) (quick_draw_spatial_basemap a) h0
  = match f (PlateCarree (central_longitude a)) h0 with
    | Some e =>
        Outcome (inl e) h0 [Ev (PlateCarree (central_longitude a)) (inl e)]
    | None =>
        let h1 := h0 ++ [OPlateCarree (central_longitude a)] in
        let pc := Ev (PlateCarree (central_longitude a)) (inr (crs_of h0)) in
        match f (subplots_call a (crs_of h0)) h1 with
        | Some e => Outcome (inl e) h1 [pc; Ev (subplots_call a (crs_of h0)) (inl e)]
        | None =>
            let o := run (inject f mpl) (decorate_result a (ax_of a h0))
                         (constructed a h0) in
            Outcome (match res o with
                     | inl e => inl e
                     | inr _ => inr (fig_of h0, ax_of a h0)
                     end)
                    (world o)
                    (pc :: Ev (subplots_call a (crs_of h0))
                             (inr (fig_of h0, ax_of a h0)) :: trace o)
        end
    end.
Proof.
  rewrite run_quick_draw. unfold inject at 1.
  destruct (f (PlateCarree (central_longitude a)) h0) as [e |]; [done |].
  change (mpl (PlateCarree (central_longitude a)) h0)
    with (inr (B:=pyval) (A:=exn) (crs_of h0),
          h0 ++ [OPlateCarree (central_longitude a)]).
  cbv zeta. unfold inject at 1.
  destruct (f (subplots_call a (crs_of h0)) _) as [e |]; [done |].
  by rewrite (subplots_constructed a h0 Hr Hc).
Qed.
End Call.

(** ** The double: the heap during and after decoration *)

Section Progress.
Context (a : kwargs) (h0 : heap).
Context (Hr : 1 ≤ nrows a) (Hc : 1 ≤ ncols a).

Lemma grid_state_decorated k :
  (k ≤ cells a)%nat →
  grid_state a h0 (decorated a (seq (first_axes h0) k) (constructed a h0))
             (progress a k []).
Proof.
  intros Hk. split.
  - intros i Hi. unfold progress.
    destruct (Nat.ltb_spec i k) as [Hik | Hik].
    + rewrite decorated_lookup_in.
      * by rewrite (constructed_axes a h0 Hr Hc i Hi).
      * apply NoDup_seq.
      * apply elem_of_seq. lia.
    + rewrite decorated_lookup_notin by (rewrite elem_of_seq; lia).
      rewrite (constructed_axes a h0 Hr Hc i Hi).
      by destruct (i =? k)%nat.
  - intros l Hl. apply decorated_lookup_notin. rewrite elem_of_seq. lia.
Qed.

Lemma grid_state_gridded k :
  (k < cells a)%nat →
  grid_state a h0
    (alter (add_artist (grid_art a)) (first_axes h0 + k)%nat
       (decorated a (seq (first_axes h0) k) (constructed a h0)))
    (progress a k [grid_art a]).
Proof.
  intros Hk.
  destruct (grid_state_decorated k) as [Hin Hout]; [lia |].
  split.
  - intros i Hi. destruct (decide (i = k)) as [-> | Hne].
    + rewrite list_lookup_alter_eq, (Hin k Hk). unfold progress.
      rewrite Nat.ltb_irrefl, Nat.eqb_refl. done.
    + rewrite list_lookup_alter_ne by lia. rewrite (Hin i Hi).
      unfold progress. destruct (i <? k)%nat; [done |].
      by destruct (Nat.eqb_spec i k).
  - intros l Hl. rewrite list_lookup_alter_ne by lia. by apply Hout.
Qed.

Lemma progress_all i :
  (i < cells a)%nat → progress a (cells a) [] i = full_decoration a.
Proof. intros Hi. unfold progress. by destruct (Nat.ltb_spec i (cells a)); [| lia]. Qed.

(** *** What a caller can observe on such a heap *)

Context (H : heap) (arts : nat → list artist).
Context (HH : grid_state a h0 H arts).

Lemma obs_axes i :
  (i < cells a)%nat →
  artists_of H (VRef (first_axes h0 + i)%nat) = Some (arts i)
  ∧ projection_of H (VRef (first_axes h0 + i)%nat) = Some (crs_of h0)
  ∧ position_of H (VRef (first_axes h0 + i)%nat)
    = Some (i / Z.to_nat (ncols a), i mod Z.to_nat (ncols a))%nat.
Proof.
  intros Hi. destruct HH as [Hin _].
  unfold artists_of, projection_of, position_of, deref.
  by rewrite (Hin i Hi).
Qed.

Lemma obs_old l obj : h0 !! l = Some obj → H !! l = Some obj.
Proof.
  intros Hl. destruct HH as [_ Hout]. rewrite Hout.
  - by apply constructed_old.
  - apply lookup_lt_Some in Hl. unfold first_axes. lia.
Qed.

Lemma obs_crs :
  central_meridian H (crs_of h0) = Some (central_longitude a).
Proof.
  destruct HH as [_ Hout]. unfold central_meridian, crs_of, deref.
  rewrite Hout by (unfold first_axes; lia).
  by rewrite (constructed_crs a h0 Hr Hc).
Qed.

Lemma obs_fig :
  deref H (fig_of h0) = Some (OFigure (VRef <$> axes_locs a h0)).
Proof.
  destruct HH as [_ Hout]. unfold fig_of, deref.
  rewrite Hout by (unfold first_axes; lia).
  by rewrite (constructed_fig a h0 Hr Hc).
Qed.

Lemma obs_array :
  single a = false →
  deref H (ax_of a h0)
  = Some (if (Z.to_nat (nrows a) =? 1)%nat || (Z.to_nat (ncols a) =? 1)%nat
          then ONdarray1 (VRef <$> axes_locs a h0)
          else ONdarray2 (grid (Z.to_nat (nrows a)) (Z.to_nat (ncols a))
                            (λ i j, VRef (first_axes h0
                                          + i * Z.to_nat (ncols a) + j)%nat))).
Proof.
  intros Hs. destruct HH as [_ Hout]. unfold ax_of, deref. rewrite Hs.
  rewrite Hout by lia. by apply constructed_array.
Qed.

Lemma obs_single :
  single a = true →
  ax_of a h0 = VRef (first_axes h0)
  ∧ axes_locs a h0 = [first_axes h0]
  ∧ ∃ pos proj, deref H (ax_of a h0) = Some (OAxes pos proj (arts 0%nat)).
Proof.
  intros Hs. destruct HH as [Hin _]. unfold ax_of, axes_locs, deref.
  rewrite Hs, (single_cells a Hs). split_and!; [done | done |].
  specialize (Hin 0%nat). rewrite Nat.add_0_r in Hin.
  rewrite Hin by (rewrite (single_cells a Hs); lia). eauto.
Qed.

Lemma obs_surfaces :
  surfaces H (ax_of a h0) = Some (VRef <$> axes_locs a h0).
Proof.
  unfold surfaces. destruct (single a) eqn:Hs.
  - destruct (obs_single Hs) as (Hax & Hls & pos & proj & ->).
    by rewrite Hax, Hls.
  - rewrite (obs_array Hs). destruct (_ || _); [done |].
    rewrite concat_grid_refs; [done | lia].
Qed.

Lemma obs_shape :
  shape H (ax_of a h0)
  = Some (if single a then []
          else if (Z.to_nat (nrows a) =? 1)%nat || (Z.to_nat (ncols a) =? 1)%nat
               then [cells a]
               else [Z.to_nat (nrows a); Z.to_nat (ncols a)]).
Proof.
  unfold shape. destruct (single a) eqn:Hs.
  - by destruct (obs_single Hs) as (_ & _ & pos & proj & ->).
  - rewrite (obs_array Hs). destruct (_ || _).
    + unfold axes_locs. by rewrite length_fmap, length_seq.
    + rewrite length_grid, head_grid; [done | lia].
Qed.

Lemma obs_is_axes : is_axes H (ax_of a h0) = single a.
Proof.
  destruct (single a) eqn:Hs.
  - destruct (obs_single Hs) as (Hax & _ & pos & proj & Hd).
    rewrite Hax in *. unfold is_axes. unfold deref in Hd. by rewrite Hd.
  - pose proof (obs_array Hs) as Hd. unfold ax_of in *. rewrite Hs in *.
    unfold is_axes. unfold deref in Hd. rewrite Hd. by destruct (_ || _).
Qed.

Lemma obs_item2 i j :
  1 < nrows a → 1 < ncols a →
  (i < Z.to_nat (nrows a))%nat → (j < Z.to_nat (ncols a))%nat →
  item2 H (ax_of a h0) i j
  = Some (VRef (first_axes h0 + (i * Z.to_nat (ncols a) + j))%nat).
Proof.
  intros Hr1 Hc1 Hi Hj.
  assert (single a = false) as Hs.
  { unfold single. apply andb_false_iff. left. apply Z.eqb_neq. lia. }
  unfold item2. rewrite (obs_array Hs).
  destruct (Nat.eqb_spec (Z.to_nat (nrows a)) 1); [lia |].
  destruct (Nat.eqb_spec (Z.to_nat (ncols a)) 1); [lia |].
  simpl orb. cbv iota. rewrite grid_lookup by done. f_equal. f_equal. lia.
Qed.
End Progress.

(** ** The double: a whole call *)

Section Whole.
Context (a : kwargs) (h0 : heap).

(** The calls issued before any decoration. *)
Lemma run_mpl_valid :
  1 ≤ nrows a → 1 ≤ ncols a →
  let o := run mpl (quick_draw_spatial_basemap a) h0 in
  res o = inr (fig_of h0, ax_of a h0)
  ∧ grid_state a h0 (world o) (progress a (cells a) [])
  ∧ ev_call <$> trace o
    = PlateCarree (central_longitude a)
        :: subplots_call a (crs_of h0)
        :: (if single a then [] else [flat (ax_of a h0)])
        ++ decorations a (VRef <$> axes_locs a h0)
  ∧ ∃ tr, trace o
          = Ev (PlateCarree (central_longitude a)) (inr (crs_of h0))
              :: Ev (subplots_call a (crs_of h0))
                    (inr (fig_of h0, ax_of a h0))
              :: tr.
Proof.
  intros Hr Hc o.
  set (loop := run (inject no_fault mpl)
                   (for_each (VRef <$> axes_locs a h0) (decorate a))
                   (constructed a h0)).
  assert (o = Outcome
                (match res loop with
                 | inl e => inl e
                 | inr _ => inr (fig_of h0, ax_of a h0)
                 end)
                (world loop)
                (Ev (PlateCarree (central_longitude a)) (inr (crs_of h0))
                   :: Ev (subplots_call a (crs_of h0))
                         (inr (fig_of h0, ax_of a h0))
                   :: (if single a then []
                       else [Ev (flat (ax_of a h0))
                                (inr (VRef <$> axes_locs a h0))])
                   ++ trace loop)) as ->.
  { unfold o. rewrite (run_ext mpl (inject no_fault mpl)) by done.
    rewrite (run_inject_mpl _ a h0 Hr Hc). cbv zeta.
    unfold no_fault at 1 2. rewrite (run_decorate_result _ a h0 Hr Hc).
    destruct (single a); [done |]. by unfold no_fault at 1. }
  destruct (run_decorate_loop no_fault a (axes_locs a h0) (constructed a h0)
              (constructed_is_axes a h0 Hr Hc))
    as [(Hres & Hw & Htr) | (k & l & e & _ & _ & [(? & _) | (_ & ? & _)])];
    [| done | done].
  fold loop in Hres, Hw, Htr. cbn [res world trace].
  rewrite Hres, Hw, !fmap_cons, fmap_app, Htr.
  split_and!; [done | by apply grid_state_decorated | | eauto].
  by destruct (single a).
Qed.

Lemma run_mpl_invalid :
  nrows a ≤ 0 ∨ ncols a ≤ 0 →
  ∃ msg, run mpl (quick_draw_spatial_basemap a) h0
         = Outcome (inl (ValueError msg))
             ((h0 ++ [OPlateCarree (central_longitude a)]) ++ [OFigure []])
             [Ev (PlateCarree (central_longitude a)) (inr (crs_of h0));
              Ev (subplots_call a (crs_of h0)) (inl (ValueError msg))].
Proof.
  intros Hbad.
  destruct (mpl_subplots_invalid (nrows a) (ncols a)
              [("projection", crs_of h0)]
              (h0 ++ [OPlateCarree (central_longitude a)]) Hbad) as [msg He].
  exists msg.
  apply (run_quick_draw_subplots_fails mpl a h0 (crs_of h0)
           (h0 ++ [OPlateCarree (central_longitude a)]) (ValueError msg)
           ((h0 ++ [OPlateCarree (central_longitude a)]) ++ [OFigure []]));
    [done |].
  exact He.
Qed.

Lemma run_mpl_inr fig ax :
  res (run mpl (quick_draw_spatial_basemap a) h0) = inr (fig, ax) →
  1 ≤ nrows a ∧ 1 ≤ ncols a ∧ fig = fig_of h0 ∧ ax = ax_of a h0.
Proof.
  intros Hres.
  destruct (Z.le_gt_cases 1 (nrows a)) as [Hr | Hr];
    [destruct (Z.le_gt_cases 1 (ncols a)) as [Hc | Hc] |].
  - destruct (run_mpl_valid Hr Hc) as (Hres' & _).
    rewrite Hres' in Hres. by injection Hres as <- <-.
  - destruct run_mpl_invalid as [e He]; [lia |]. by rewrite He in Hres.
  - destruct run_mpl_invalid as [e He]; [lia |]. by rewrite He in Hres.
Qed.

Lemma axes_locs_lookup i :
  (i < cells a)%nat →
  (VRef <$> axes_locs a h0) !! i = Some (VRef (first_axes h0 + i)%nat).
Proof.
  intros Hi. unfold axes_locs.
  by rewrite list_lookup_fmap, lookup_seq_lt.
Qed.

Lemma axes_locs_elem s :
  s ∈ VRef <$> axes_locs a h0 →
  ∃ i, (i < cells a)%nat ∧ s = VRef (first_axes h0 + i)%nat.
Proof.
  intros (l & -> & Hl)%list_elem_of_fmap. apply elem_of_seq in Hl.
  exists (l - first_axes h0)%nat. split; [lia | f_equal; lia].
Qed.

Lemma axes_locs_NoDup : NoDup (VRef <$> axes_locs a h0).
Proof.
  apply NoDup_fmap_2; [| apply NoDup_seq]. by intros ?? [= ->].
Qed.

Lemma length_axes_locs : length (VRef <$> axes_locs a h0) = cells a.
Proof. unfold axes_locs. by rewrite length_fmap, length_seq. Qed.
End Whole.

Lemma div_mod_row (i j c : nat) :
  (j < c)%nat → ((i * c + j) / c = i ∧ (i * c + j) mod c = j)%nat.
Proof.
  intros Hj. split; symmetry.
  - apply (Nat.div_unique _ _ _ j); lia.
  - apply (Nat.mod_unique _ _ i); lia.
Qed.

Lemma filter_decorations a ss :
  filter (λ c, is_decoration c = true) (decorations a ss) = decorations a ss.
Proof.
  induction ss as [| s ss IH]; [done |].
  change (decorations a (s :: ss))
    with (gridlines_call a s :: coastlines_call a s :: decorations a ss).
  rewrite !filter_cons_True by done. by rewrite IH.
Qed.

Lemma filter_projection_decorations a ss :
  filter (λ c, is_projection c = true) (decorations a ss) = [].
Proof.
  induction ss as [| s ss IH]; [done |].
  change (decorations a (s :: ss))
    with (gridlines_call a s :: coastlines_call a s :: decorations a ss).
  rewrite !filter_cons_False by done. by rewrite IH.
Qed.

Lemma label_selectors_decorations a ss :
  omap label_selector (decorations a ss) = replicate (length ss) (draw_labels a).
Proof.
  induction ss as [| s ss IH]; [done |].
  change (omap label_selector (decorations a (s :: ss)))
    with (draw_labels a :: omap label_selector (decorations a ss)).
  by rewrite IH.
Qed.

(** What the calls of a successful run against the double amount to. *)
Lemma calls_of_valid_run a (h0 : heap) (tr : list event) :
  ev_call <$> tr
  = PlateCarree (central_longitude a)
      :: subplots_call a (crs_of h0)
      :: (if single a then [] else [flat (ax_of a h0)])
      ++ decorations a (VRef <$> axes_locs a h0) →
  decoration_calls tr = decorations a (VRef <$> axes_locs a h0)
  ∧ projection_calls tr = [PlateCarree (central_longitude a)]
  ∧ label_selectors tr = replicate (cells a) (draw_labels a).
Proof.
  intros Htr. unfold decoration_calls, projection_calls, label_selectors.
  rewrite Htr. split_and!.
  - rewrite !filter_cons_False by done.
    rewrite filter_app, filter_decorations. by destruct (single a).
  - rewrite filter_cons_True, filter_cons_False by done.
    rewrite filter_app, filter_projection_decorations. by destruct (single a).
  - cbn [omap list_omap label_selector subplots_call].
    rewrite omap_app, label_selectors_decorations, length_axes_locs.
    by destruct (single a).
Qed.

Lemma single_iff a : single a = true ↔ nrows a = 1 ∧ ncols a = 1.
Proof. unfold single. rewrite andb_true_iff, !Z.eqb_eq. done. Qed.

Lemma single_false_iff a : single a = false ↔ ¬ (nrows a = 1 ∧ ncols a = 1).
Proof. rewrite <- single_iff. by destruct (single a). Qed.

(** ** Failing providers *)

Section Faults.
Context (f : call → heap → option exn) (a : kwargs) (h0 : heap).
Context (Hr : 1 ≤ nrows a) (Hc : 1 ≤ ncols a).

(** How the decoration loop can end, on the heap as constructed. *)
Lemma loop_outcome :
  let loop := run (inject f mpl)
                  (for_each (VRef <$> axes_locs a h0) (decorate a))
                  (constructed a h0) in
  (res loop = inr tt
   ∧ Forall answered (trace loop)
   ∧ grid_state a h0 (world loop) (progress a (cells a) []))
  ∨ ∃ e tr c k,
      res loop = inl e
      ∧ trace loop = tr ++ [Ev c (inl e)]
      ∧ Forall answered tr
      ∧ f c (world loop) = Some e
      ∧ is_decoration c = true
      ∧ (k < cells a)%nat
      ∧ receiver c = Some (VRef (first_axes h0 + k)%nat)
      ∧ grid_state a h0 (world loop) (progress a k (left_on_failure a c)).
Proof.
  intros loop.
  destruct (run_decorate_loop f a (axes_locs a h0) (constructed a h0)
              (constructed_is_axes a h0 Hr Hc))
    as [(Hres & Hw & _) | (k & l & e & Hk & Hres & Hcase)];
    fold loop in Hres |- *.
  - left. fold loop in Hw. split_and!; [done | by eapply run_inr |].
    rewrite Hw. by apply grid_state_decorated.
  - right. unfold axes_locs in Hk. apply lookup_seq in Hk as [-> Hk].
    destruct (run_inl _ _ _ _ Hres) as (tr & c & Htr & Hok & _).
    fold loop in Htr.
    assert (take k (axes_locs a h0) = seq (first_axes h0) k) as Htake.
    { unfold axes_locs. rewrite take_seq. f_equal. lia. }
    rewrite Htake in Hcase. cbv zeta in Hcase. fold loop in Hcase.
    exists e, tr, c, k.
    destruct Hcase as [(Hf & Hw & Hcalls) | (_ & Hf & Hw & Hcalls)].
    + assert (c = gridlines_call a (VRef (first_axes h0 + k)%nat)) as ->.
      { rewrite Htr, fmap_app in Hcalls.
        by apply app_inj_tail in Hcalls as [_ ?]. }
      rewrite Hw. split_and!; try done.
      apply grid_state_decorated; [done | done | lia].
    + assert (c = coastlines_call a (VRef (first_axes h0 + k)%nat)) as ->.
      { rewrite Htr, fmap_app in Hcalls.
        change [gridlines_call a (VRef (first_axes h0 + k)%nat);
                coastlines_call a (VRef (first_axes h0 + k)%nat)]
          with ([gridlines_call a (VRef (first_axes h0 + k)%nat)]
                  ++ [coastlines_call a (VRef (first_axes h0 + k)%nat)])
          in Hcalls.
        rewrite app_assoc in Hcalls.
        by apply app_inj_tail in Hcalls as [_ ?]. }
      rewrite Hw. split_and!; try done.
      by apply grid_state_gridded.
Qed.

(** The whole call, with the three calls that may fail before the loop. *)
Lemma run_inject_cases :
  let o := run (inject f mpl) (quick_draw_spatial_basemap a) h0 in
  let loop := run (inject f mpl)
                  (for_each (VRef <$> axes_locs a h0) (decorate a))
                  (constructed a h0) in
  (∃ e tr c,
     res o = inl e ∧ trace o = tr ++ [Ev c (inl e)] ∧ Forall answered tr
     ∧ f c (world o) = Some e ∧ is_decoration c = false
     ∧ decoration_calls (trace o) = [])
  ∨ (∃ pre,
       res o = match res loop with
               | inl e => inl e
               | inr _ => inr (fig_of h0, ax_of a h0)
               end
       ∧ world o = world loop
       ∧ trace o = pre ++ trace loop
       ∧ Forall answered pre
       ∧ Ev (subplots_call a (crs_of h0)) (inr (fig_of h0, ax_of a h0)) ∈ pre).
Proof.
  intros o loop. unfold o.
  rewrite (run_inject_mpl f a h0 Hr Hc).
  destruct (f (PlateCarree (central_longitude a)) h0) as [e |] eqn:Hpc.
  { left. exists e, [], (PlateCarree (central_longitude a)).
    split_and!; try done. }
  cbv zeta.
  destruct (f (subplots_call a (crs_of h0)) _) as [e |] eqn:Hsp.
  { left. exists e, [Ev (PlateCarree (central_longitude a)) (inr (crs_of h0))],
                 (subplots_call a (crs_of h0)).
    split_and!; try done. by repeat constructor. }
  rewrite (run_decorate_result f a h0 Hr Hc). fold loop.
  destruct (single a).
  { right. eexists [_; _]. cbn [res world trace].
    split_and!; try done; [by repeat constructor |].
    apply list_elem_of_further, list_elem_of_here. }
  destruct (f (flat (ax_of a h0)) (constructed a h0)) as [e |] eqn:Hfl.
  { left. exists e, [Ev (PlateCarree (central_longitude a)) (inr (crs_of h0));
                     Ev (subplots_call a (crs_of h0))
                        (inr (fig_of h0, ax_of a h0))],
                 (flat (ax_of a h0)).
    split_and!; try done. by repeat constructor. }
  right. eexists [_; _; _]. cbn [res world trace].
  split_and!; try done; [by repeat constructor |].
  apply list_elem_of_further, list_elem_of_here.
Qed.
End Faults.

Lemma axes_locs_lookup_inv a (h0 : heap) i t :
  (VRef <$> axes_locs a h0) !! i = Some t →
  (i < cells a)%nat ∧ t = VRef (first_axes h0 + i)%nat.
Proof.
  unfold axes_locs. rewrite list_lookup_fmap.
  destruct (seq _ _ !! i) as [l |] eqn:Hl; [| done].
  apply lookup_seq in Hl as [-> Hi]. by intros [= <-].
Qed.


(** ** The double with failures injected: a whole call *)

Lemma mpl_subplots_call_invalid a crs (h : heap) :
  nrows a ≤ 0 ∨ ncols a ≤ 0 →
  ∃ msg, mpl (subplots_call a crs) h
         = (inl (ValueError msg), h ++ [OFigure []]).
Proof.
  intros Hbad.
  exact (mpl_subplots_invalid (nrows a) (ncols a) [("projection", crs)] h Hbad).
Qed.

(** With a row or column count that is not positive the call fails: at
    [PlateCarree] or at [subplots] if the toolkit rejects the call, and
    at the latest when [subplots] lays out the grid. *)
Lemma run_inject_invalid (f : call → heap → option exn) a (h0 : heap) :
  nrows a ≤ 0 ∨ ncols a ≤ 0 →
  let h1 := h0 ++ [OPlateCarree (central_longitude a)] in
  let pc := Ev (PlateCarree (central_longitude a)) (inr (crs_of h0)) in
  let sp := subplots_call a (crs_of h0) in
  let o := run (inject f mpl) (quick_draw_spatial_basemap a) h0 in
  (∃ e, f (PlateCarree (central_longitude a)) h0 = Some e
        ∧ o = Outcome (inl e) h0
                [Ev (PlateCarree (central_longitude a)) (inl e)])
  ∨ (∃ e, f sp h1 = Some e
          ∧ o = Outcome (inl e) h1 [pc; Ev sp (inl e)])
  ∨ (∃ msg, mpl sp h1 = (inl (ValueError msg), h1 ++ [OFigure []])
            ∧ o = Outcome (inl (ValueError msg)) (h1 ++ [OFigure []])
                    [pc; Ev sp (inl (ValueError msg))]).
Proof.
  intros Hbad. cbv zeta.
  set (o := run (inject f mpl) (quick_draw_spatial_basemap a) h0).
  assert (o = run (inject f mpl) (quick_draw_spatial_basemap a) h0) as Ho
    by done.
  clearbody o. rewrite run_quick_draw in Ho. unfold inject at 1 in Ho.
  destruct (f (PlateCarree (central_longitude a)) h0) as [e |] eqn:Hpc.
  { left. by exists e. }
  change (mpl (PlateCarree (central_longitude a)) h0)
    with (inr (B:=pyval) (A:=exn) (crs_of h0),
          h0 ++ [OPlateCarree (central_longitude a)]) in Ho.
  cbv zeta in Ho. unfold inject at 1 in Ho.
  destruct (f (subplots_call a (crs_of h0)) _) as [e |] eqn:Hsp.
  { right. left. by exists e. }
  destruct (mpl_subplots_call_invalid a (crs_of h0)
              (h0 ++ [OPlateCarree (central_longitude a)]) Hbad) as [msg Hmsg].
  rewrite Hmsg in Ho. right. right. by exists msg.
Qed.

(** A call that returns, whatever the toolkit may reject: the sizes
    were positive, nothing was rejected, and the heap holds the grid
    with every surface fully decorated. *)
Lemma run_inject_inr (f : call → heap → option exn) a (h0 : heap) fig ax :
  let o := run (inject f mpl) (quick_draw_spatial_basemap a) h0 in
  res o = inr (fig, ax) →
  1 ≤ nrows a ∧ 1 ≤ ncols a
  ∧ fig = fig_of h0 ∧ ax = ax_of a h0
  ∧ grid_state a h0 (world o) (progress a (cells a) [])
  ∧ ev_call <$> trace o
    = PlateCarree (central_longitude a)
        :: subplots_call a (crs_of h0)
        :: (if single a then [] else [flat (ax_of a h0)])
        ++ decorations a (VRef <$> axes_locs a h0)
  ∧ ∃ tr, trace o
          = Ev (PlateCarree (central_longitude a)) (inr (crs_of h0))
              :: Ev (subplots_call a (crs_of h0))
                    (inr (fig_of h0, ax_of a h0))
              :: tr.
Proof.
  intros o Hres.
  assert (1 ≤ nrows a ∧ 1 ≤ ncols a) as [Hr Hc].
  { destruct (Z.le_gt_cases 1 (nrows a)) as [Hr | Hr];
      [destruct (Z.le_gt_cases 1 (ncols a)) as [Hc | Hc]; [done |] |];
      exfalso;
      (destruct (run_inject_invalid f a h0)
         as [(e & _ & Ho) | [(e & _ & Ho) | (msg & _ & Ho)]]; [lia | ..]);
      fold o in Ho; by rewrite Ho in Hres. }
  split; [exact Hr |]. split; [exact Hc |].
  pose proof (run_inject_mpl f a h0 Hr Hc) as Hrun. fold o in Hrun.
  destruct (f (PlateCarree (central_longitude a)) h0) as [e |];
    [by rewrite Hrun in Hres |].
  cbv zeta in Hrun.
  destruct (f (subplots_call a (crs_of h0)) _) as [e |];
    [by rewrite Hrun in Hres |].
  rewrite (run_decorate_result f a h0 Hr Hc) in Hrun.
  destruct (run_decorate_loop f a (axes_locs a h0) (constructed a h0)
              (constructed_is_axes a h0 Hr Hc))
    as [(Hl & Hw & Htr) | (k & l & e & _ & Hl & _)];
    set (loop := run (inject f mpl)
                     (for_each (VRef <$> axes_locs a h0) (decorate a))
                     (constructed a h0)) in *.
  - assert (grid_state a h0 (world loop) (progress a (cells a) [])) as Hgs.
    { rewrite Hw. by apply grid_state_decorated. }
    destruct (single a).
    + rewrite Hrun in Hres |- *. cbn [res world trace] in Hres |- *.
      rewrite Hl in Hres. injection Hres as <- <-.
      rewrite !fmap_cons, Htr. split_and!; try done. eauto.
    + destruct (f (flat (ax_of a h0)) (constructed a h0)) as [e |];
        [by rewrite Hrun in Hres |].
      rewrite Hrun in Hres |- *. cbn [res world trace] in Hres |- *.
      rewrite Hl in Hres. injection Hres as <- <-.
      rewrite !fmap_cons, Htr. split_and!; try done. eauto.
  - exfalso. destruct (single a).
    + rewrite Hrun in Hres. cbn [res] in Hres. by rewrite Hl in Hres.
    + destruct (f (flat (ax_of a h0)) (constructed a h0)) as [e' |];
        rewrite Hrun in Hres; cbn [res] in Hres; [done |].
      by rewrite Hl in Hres.
Qed.

Lemma run_bind_inr_inv {W A B} (h : handler W) (p : prog A) (g : A → prog B)
    w b :
  res (run h (bind p g) w) = inr b →
  ∃ a, res (run h p w) = inr a
       ∧ res (run h (g a) (world (run h p w))) = inr b
       ∧ world (run h (bind p g) w) = world (run h (g a) (world (run h p w))).
Proof.
  intros Hres. destruct (res (run h p w)) as [e | a] eqn:Hp.
  - by rewrite (run_bind_inl h p g w e Hp) in Hres.
  - exists a. rewrite (run_bind_inr h p g w a Hp) in Hres |- *. done.
Qed.

Lemma surfaces_frame (h h' : heap) v ss :
  (∀ l obj, h !! l = Some obj → h' !! l = Some obj) →
  surfaces h v = Some ss → surfaces h' v = Some ss.
Proof.
  intros Hframe. unfold surfaces, deref.
  destruct v as [| | | | | l]; try done.
  destruct (h !! l) as [obj |] eqn:Hl; [| done].
  by rewrite (Hframe l obj Hl).
Qed.

Lemma artists_of_frame (h h' : heap) v arts :
  (∀ l obj, h !! l = Some obj → h' !! l = Some obj) →
  artists_of h v = Some arts → artists_of h' v = Some arts.
Proof.
  intros Hframe. unfold artists_of, deref.
  destruct v as [| | | | | l]; try done.
  destruct (h !! l) as [obj |] eqn:Hl; [| done].
  by rewrite (Hframe l obj Hl).
Qed.

(** With positive sizes, every failure is one the toolkit's rejections
    brought about. *)
Lemma all_or_error_valid
    (f : call → heap → option exn) (a : kwargs) (h0 : heap) :
  1 ≤ nrows a → 1 ≤ ncols a →
  let o := run (inject f mpl) (quick_draw_spatial_basemap a) h0 in
  (∃ fig ax ss,
     res o = inr (fig, ax)
     ∧ Forall answered (trace o)
     ∧ surfaces (world o) ax = Some ss
     ∧ ∀ s, s ∈ ss → artists_of (world o) s = Some (full_decoration a))
  ∨ ∃ e tr c,
      res o = inl e
      ∧ trace o = tr ++ [Ev c (inl e)]
      ∧ Forall answered tr
      ∧ f c (world o) = Some e
      ∧ (is_decoration c = false → decoration_calls (trace o) = [])
      ∧ (is_decoration c = true →
           ∃ crs fig ax ss k s,
             Ev (subplots_call a crs) (inr (fig, ax)) ∈ tr
             ∧ surfaces (world o) ax = Some ss
             ∧ ss !! k = Some s
             ∧ receiver c = Some s
             ∧ artists_of (world o) s = Some (left_on_failure a c)
             ∧ (∀ i t, ss !! i = Some t → (i < k)%nat →
                       artists_of (world o) t = Some (full_decoration a))
             ∧ (∀ i t, ss !! i = Some t → (k < i)%nat →
                       artists_of (world o) t = Some [])).
Proof.
  intros Hr Hc o.
  destruct (run_inject_cases f a h0 Hr Hc)
    as [(e & tr & c & Hres & Htr & Hok & Hf & Hdec & Hnone)
       | (pre & Hres & Hw & Htr & Hpre & Hsp)]; fold o in Hres, Htr.
  { right. exists e, tr, c. fold o in Hf, Hnone.
    split_and!; try done. rewrite Hdec. done. }
  fold o in Hw.
  destruct (loop_outcome f a h0 Hr Hc)
    as [(Hl & Hlok & Hgs)
       | (e & tr & c & k & Hl & Hltr & Hlok & Hf & Hdec & Hk & Hrecv & Hgs)];
    rewrite <- Hw in Hgs; rewrite Hl in Hres.
  - left. exists (fig_of h0), (ax_of a h0), (VRef <$> axes_locs a h0).
    split_and!.
    + exact Hres.
    + rewrite Htr. by apply Forall_app.
    + by apply (obs_surfaces a h0 Hr Hc _ _ Hgs).
    + intros s (i & Hi & ->)%axes_locs_elem.
      destruct (obs_axes a h0 _ _ Hgs _ Hi) as (-> & _).
      by rewrite progress_all.
  - right. exists e, (pre ++ tr), c. rewrite <- Hw in Hf.
    split_and!.
    + exact Hres.
    + by rewrite Htr, Hltr, app_assoc.
    + by apply Forall_app.
    + exact Hf.
    + rewrite Hdec. done.
    + intros _.
      exists (crs_of h0), (fig_of h0), (ax_of a h0), (VRef <$> axes_locs a h0),
             k, (VRef (first_axes h0 + k)%nat).
      split_and!.
      * apply elem_of_app. by left.
      * by apply (obs_surfaces a h0 Hr Hc _ _ Hgs).
      * by apply axes_locs_lookup.
      * exact Hrecv.
      * destruct (obs_axes a h0 _ _ Hgs _ Hk) as (-> & _).
        unfold progress. by rewrite Nat.ltb_irrefl, Nat.eqb_refl.
      * intros i t [Hi ->]%axes_locs_lookup_inv Hik.
        destruct (obs_axes a h0 _ _ Hgs _ Hi) as (-> & _).
        unfold progress. by destruct (Nat.ltb_spec i k); [| lia].
      * intros i t [Hi ->]%axes_locs_lookup_inv Hik.
        destruct (obs_axes a h0 _ _ Hgs _ Hi) as (-> & _).
        unfold progress. destruct (Nat.ltb_spec i k); [lia |].
        by destruct (Nat.eqb_spec i k); [lia |].
Qed.

(** * The claims *)

(** C1.  Against the toolkit double, whatever the toolkit may reject,
    every call that returns either has a 1x1 grid, in which case the
    returned surface is the Axes itself and the two decoration calls go
    to it directly, or it returns an array whose flattened sequence has
    [nrows * ncols] surfaces, the surface of grid cell [(i, j)] sitting
    at flat index [i * ncols + j]; the decoration calls are then exactly
    one gridlines call and one coastlines call per element, in
    flattened order, all with the same style arguments, and every
    surface ends up with exactly one gridliner and one coastline
    artist, the same pair on every surface. *)
Theorem basemap_decorates_every_surface
    (f : call → heap → option exn) (a : kwargs) (h0 : heap) fig ax :
  let o := run (inject f mpl) (quick_draw_spatial_basemap a) h0 in
  let r := Z.to_nat (nrows a) in
  let c := Z.to_nat (ncols a) in
  res o = inr (fig, ax) →
  ∃ crs ss,
    surfaces (world o) ax = Some ss
    ∧ length ss = (r * c)%nat
    ∧ (nrows a = 1 ∧ ncols a = 1 →
         is_axes (world o) ax = true
         ∧ ss = [ax]
         ∧ ev_call <$> trace o
           = [PlateCarree (central_longitude a); subplots_call a crs;
              gridlines_call a ax; coastlines_call a ax])
    ∧ (¬ (nrows a = 1 ∧ ncols a = 1) →
         is_axes (world o) ax = false
         ∧ ev_call <$> trace o
           = PlateCarree (central_longitude a) :: subplots_call a crs
               :: flat ax :: decorations a ss)
    ∧ (∀ i j, (i < r)%nat → (j < c)%nat →
         ∃ s, ss !! (i * c + j)%nat = Some s
              ∧ position_of (world o) s = Some (i, j))
    ∧ decoration_calls (trace o) = decorations a ss
    ∧ (∀ s, s ∈ ss → artists_of (world o) s = Some (full_decoration a)).
Proof.
  intros o r c Hres.
  destruct (run_inject_inr f a h0 fig ax Hres)
    as (Hr & Hc & -> & -> & Hgs & Htr & _).
  fold o in Hgs, Htr.
  exists (crs_of h0), (VRef <$> axes_locs a h0).
  split_and!.
  - by apply (obs_surfaces a h0 Hr Hc _ _ Hgs).
  - apply length_axes_locs.
  - intros Hs%single_iff.
    destruct (obs_single a h0 _ _ Hgs Hs) as (Hax & Hls & _).
    rewrite (obs_is_axes a h0 Hr Hc _ _ Hgs), Htr, Hs, Hls, Hax. done.
  - intros Hs%single_false_iff.
    by rewrite (obs_is_axes a h0 Hr Hc _ _ Hgs), Htr, Hs.
  - intros i j Hi Hj.
    assert (i * c + j < cells a)%nat as Hij by (unfold cells; fold r c; nia).
    exists (VRef (first_axes h0 + (i * c + j))%nat). split.
    + by apply axes_locs_lookup.
    + destruct (obs_axes a h0 _ _ Hgs _ Hij) as (_ & _ & ->).
      fold c. by destruct (div_mod_row i j c Hj) as [-> ->].
  - by apply (calls_of_valid_run a h0).
  - intros s (i & Hi & ->)%axes_locs_elem.
    destruct (obs_axes a h0 _ _ Hgs _ Hi) as (-> & _).
    by rewrite progress_all.
Qed.

Lemma basemap_decorates_every_surface_2x3 :
  let o := run (inject no_fault mpl)
               (quick_draw_spatial_basemap (with_grid 2 3 defaults))
               import_heap in
  ∃ ss,
    res o = inr (VRef 2%nat, VRef 9%nat)
    ∧ surfaces (world o) (VRef 9%nat) = Some ss
    ∧ length ss = 6%nat
    ∧ decoration_calls (trace o) = decorations (with_grid 2 3 defaults) ss.
Proof.
  intros o.
  assert (res o = inr (VRef 2%nat, VRef 9%nat)) as Hres by reflexivity.
  destruct (basemap_decorates_every_surface no_fault (with_grid 2 3 defaults)
              import_heap (VRef 2%nat) (VRef 9%nat) Hres)
    as (crs & ss & Hss & Hlen & _ & _ & _ & Hcalls & _).
  exists ss. split_and!; [exact Hres | exact Hss | exact Hlen | exact Hcalls].
Defined.

(** C2, as the code has it.  Against the toolkit double, whatever the
    toolkit may reject, a call that returns was given positive [nrows]
    and [ncols], and the returned surface value is a single Axes when
    both are 1, an array of shape [(nrows, ncols)] when both exceed 1,
    and a one-dimensional array of [nrows * ncols] surfaces when exactly
    one of them exceeds 1. *)
Theorem basemap_shape_squeezed
    (f : call → heap → option exn) (a : kwargs) (h0 : heap) fig ax :
  let o := run (inject f mpl) (quick_draw_spatial_basemap a) h0 in
  let r := Z.to_nat (nrows a) in
  let c := Z.to_nat (ncols a) in
  res o = inr (fig, ax) →
  (1 ≤ nrows a ∧ 1 ≤ ncols a)
  ∧ (nrows a = 1 ∧ ncols a = 1 →
       is_axes (world o) ax = true ∧ shape (world o) ax = Some [])
  ∧ (1 < nrows a ∧ 1 < ncols a →
       is_axes (world o) ax = false ∧ shape (world o) ax = Some [r; c])
  ∧ ((nrows a = 1 ∧ 1 < ncols a) ∨ (1 < nrows a ∧ ncols a = 1) →
       is_axes (world o) ax = false
       ∧ shape (world o) ax = Some [(r * c)%nat]).
Proof.
  intros o r c Hres.
  destruct (run_inject_inr f a h0 fig ax Hres)
    as (Hr & Hc & -> & -> & Hgs & _).
  fold o in Hgs. split; [done |].
  rewrite (obs_is_axes a h0 Hr Hc _ _ Hgs), (obs_shape a h0 Hr Hc _ _ Hgs).
  fold r c. split_and!.
  - intros Hs%single_iff. by rewrite Hs.
  - intros [Hr1 Hc1].
    assert (single a = false) as -> by (apply single_false_iff; lia).
    destruct (Nat.eqb_spec r 1); [unfold r in *; lia |].
    destruct (Nat.eqb_spec c 1); [unfold c in *; lia |]. done.
  - intros Hone.
    assert (single a = false) as -> by (apply single_false_iff; lia).
    assert ((r =? 1)%nat || (c =? 1)%nat = true) as ->; [| done].
    apply orb_true_iff. rewrite !Nat.eqb_eq. unfold r, c. lia.
Qed.

Lemma basemap_shape_squeezed_3x1 :
  let o := run (inject no_fault mpl)
               (quick_draw_spatial_basemap (with_grid 3 1 defaults))
               import_heap in
  res o = inr (VRef 2%nat, VRef 6%nat)
  ∧ shape (world o) (VRef 6%nat) = Some [3%nat].
Proof.
  intros o.
  assert (res o = inr (VRef 2%nat, VRef 6%nat)) as Hres by reflexivity.
  split; [exact Hres |].
  destruct (basemap_shape_squeezed no_fault (with_grid 3 1 defaults)
              import_heap (VRef 2%nat) (VRef 6%nat) Hres)
    as (_ & _ & _ & Hflat).
  apply Hflat. right. simpl. lia.
Defined.

(** C2, as the claim words it, fails on a 1x3 grid: the call returns a
    one-dimensional array of 3 surfaces, whose shape is [(3,)] and not
    [(1, 3)]. *)
Lemma basemap_shape_1x3_not_grid :
  let a := with_grid 1 3 defaults in
  let o := run mpl (quick_draw_spatial_basemap a) import_heap in
  1 ≤ nrows a ∧ 1 ≤ ncols a ∧ (1 < nrows a ∨ 1 < ncols a)
  ∧ ∃ fig ax,
      res o = inr (fig, ax)
      ∧ shape (world o) ax = Some [3%nat]
      ∧ shape (world o) ax
        ≠ Some [Z.to_nat (nrows a); Z.to_nat (ncols a)].
Proof.
  intros a o. split_and!; [simpl; lia | simpl; lia | right; simpl; lia |].
  exists (VRef 2%nat), (VRef 6%nat). split_and!.
  - vm_compute. reflexivity.
  - vm_compute. reflexivity.
  - vm_compute. discriminate.
Qed.

Lemma VFloat_180_neq_0 : VFloat 180 ≠ VFloat 0.
Proof.
  intros Heq.
  apply (f_equal (λ v, match v with
                       | VFloat x => PrimFloat.eqb x 0
                       | _ => false
                       end)) in Heq.
  vm_compute in Heq. discriminate.
Qed.

(** C3.  Against the toolkit double, whatever the toolkit may reject,
    every call that returns has built exactly one projection object, by
    one [PlateCarree] call carrying the given [central_longitude]; that
    object is a Plate Carree projection whose central meridian is
    [central_longitude], and every surface of the grid holds a reference
    to that one object.  With [central_longitude = 180] the central
    meridian is 180, which is not the default one, 0. *)
Theorem basemap_projection_shared
    (f : call → heap → option exn) (a : kwargs) (h0 : heap) fig ax :
  let o := run (inject f mpl) (quick_draw_spatial_basemap a) h0 in
  res o = inr (fig, ax) →
  ∃ crs ss,
    surfaces (world o) ax = Some ss
    ∧ ss ≠ []
    ∧ projection_calls (trace o) = [PlateCarree (central_longitude a)]
    ∧ Ev (PlateCarree (central_longitude a)) (inr crs) ∈ trace o
    ∧ central_meridian (world o) crs = Some (central_longitude a)
    ∧ (∀ s, s ∈ ss → projection_of (world o) s = Some crs)
    ∧ (central_longitude a = VFloat 180 →
         central_meridian (world o) crs = Some (VFloat 180)
         ∧ central_meridian (world o) crs
           ≠ Some (central_longitude defaults)).
Proof.
  intros o Hres.
  destruct (run_inject_inr f a h0 fig ax Hres)
    as (Hr & Hc & -> & -> & Hgs & Htr & tr & Hevs).
  fold o in Hgs, Htr, Hevs.
  pose proof (obs_crs a h0 Hr Hc _ _ Hgs) as Hcm.
  exists (crs_of h0), (VRef <$> axes_locs a h0).
  split_and!.
  - by apply (obs_surfaces a h0 Hr Hc _ _ Hgs).
  - intros Hnil. pose proof (length_axes_locs a h0) as Hlen.
    rewrite Hnil in Hlen. pose proof (cells_pos a Hr Hc). simpl in Hlen. lia.
  - by apply (calls_of_valid_run a h0).
  - rewrite Hevs. apply list_elem_of_here.
  - exact Hcm.
  - intros s (i & Hi & ->)%axes_locs_elem.
    by destruct (obs_axes a h0 _ _ Hgs _ Hi) as (_ & -> & _).
  - intros Hcl. rewrite Hcm, Hcl. split; [done |].
    intros Heq. apply VFloat_180_neq_0. by apply (inj Some).
Qed.

Lemma basemap_projection_shared_180 :
  let a := with_central_longitude (VFloat 180) (with_grid 2 2 defaults) in
  let o := run (inject no_fault mpl) (quick_draw_spatial_basemap a)
               import_heap in
  ∃ crs ss,
    res o = inr (VRef 2%nat, VRef 7%nat)
    ∧ surfaces (world o) (VRef 7%nat) = Some ss
    ∧ central_meridian (world o) crs = Some (VFloat 180)
    ∧ (∀ s, s ∈ ss → projection_of (world o) s = Some crs).
Proof.
  intros a o.
  assert (res o = inr (VRef 2%nat, VRef 7%nat)) as Hres by reflexivity.
  destruct (basemap_projection_shared no_fault a import_heap
              (VRef 2%nat) (VRef 7%nat) Hres)
    as (crs & ss & Hss & _ & _ & _ & _ & Hproj & H180).
  destruct H180 as [Hcm _]; [reflexivity |].
  exists crs, ss.
  split_and!; [exact Hres | exact Hss | exact Hcm | exact Hproj].
Defined.

(** C4.  Against the toolkit double, whatever the toolkit may reject,
    every call that returns has made, for the [k]-th surface in
    flattened order, the gridlines call (carrying the label selector and
    the gridline styles) as decoration call number [2k] and the
    coastlines call (carrying the coastline edge colour and line width)
    as decoration call number [2k + 1]; there are no other decoration
    calls, the surfaces are pairwise distinct, and each surface carries
    exactly two artists, the gridliner first and the coastlines second.
    The gridliner holds the arguments of its call; the coastline artist
    holds the line width of its call and is black, the toolkit letting
    its own [color] take the place of the edge colour it was handed. *)
Theorem basemap_gridlines_then_coastlines
    (f : call → heap → option exn) (a : kwargs) (h0 : heap) fig ax :
  let o := run (inject f mpl) (quick_draw_spatial_basemap a) h0 in
  res o = inr (fig, ax) →
  ∃ ss,
    surfaces (world o) ax = Some ss
    ∧ NoDup ss
    ∧ length (decoration_calls (trace o)) = (2 * length ss)%nat
    ∧ ∀ k s, ss !! k = Some s →
        decoration_calls (trace o) !! (2 * k)%nat
        = Some (gridlines s (draw_labels a) (gridlines_color a)
                          (gridlines_alpha a) (gridlines_linestyle a))
        ∧ decoration_calls (trace o) !! (2 * k + 1)%nat
          = Some (coastlines s (coastlines_edgecolor a)
                             (coastlines_linewidths a))
        ∧ artists_of (world o) s
          = Some [Gridliner (draw_labels a) (gridlines_color a)
                            (gridlines_alpha a) (gridlines_linestyle a);
                  CoastlineFeature (VStr "black") (coastlines_linewidths a)].
Proof.
  intros o Hres.
  destruct (run_inject_inr f a h0 fig ax Hres)
    as (Hr & Hc & -> & -> & Hgs & Htr & _).
  fold o in Hgs, Htr.
  destruct (calls_of_valid_run a h0 _ Htr) as (Hdeco & _).
  exists (VRef <$> axes_locs a h0). rewrite Hdeco.
  split_and!.
  - by apply (obs_surfaces a h0 Hr Hc _ _ Hgs).
  - apply axes_locs_NoDup.
  - apply length_decorations.
  - intros k s Hk.
    destruct (decorations_lookup a _ _ _ Hk) as [Hg Hcst].
    split_and!; [exact Hg | exact Hcst |].
    apply list_elem_of_lookup_2, axes_locs_elem in Hk as (i & Hi & ->).
    destruct (obs_axes a h0 _ _ Hgs _ Hi) as (-> & _).
    by rewrite progress_all.
Qed.

Lemma basemap_gridlines_then_coastlines_1x2 :
  let a := with_grid 1 2 defaults in
  let o := run (inject no_fault mpl) (quick_draw_spatial_basemap a)
               import_heap in
  ∃ ss,
    res o = inr (VRef 2%nat, VRef 5%nat)
    ∧ surfaces (world o) (VRef 5%nat) = Some ss
    ∧ length (decoration_calls (trace o)) = (2 * length ss)%nat.
Proof.
  intros a o.
  assert (res o = inr (VRef 2%nat, VRef 5%nat)) as Hres by reflexivity.
  destruct (basemap_gridlines_then_coastlines no_fault a import_heap
              (VRef 2%nat) (VRef 5%nat) Hres) as (ss & Hss & _ & Hlen & _).
  exists ss. split_and!; [exact Hres | exact Hss | exact Hlen].
Defined.

(** C5.  Called with no arguments, on a heap that still holds the
    default label list, the function builds a 1x1 grid: the figure has
    one surface, at grid cell (0, 0), and that surface itself is
    returned; it carries a gridliner whose label selector is the list
    [["bottom", "left"]], of colour grey, alpha 0.5 and dashed line
    style, followed by coastlines of edge colour black and line width
    0.5. *)
Theorem basemap_defaults (h0 : heap) :
  h0 !! default_draw_labels_loc = Some (OList [VStr "bottom"; VStr "left"]) →
  let o := run mpl (quick_draw_spatial_basemap defaults) h0 in
  ∃ fig ax crs dl,
    res o = inr (fig, ax)
    ∧ ev_call <$> trace o
      = [PlateCarree (VFloat 0); subplots 1 1 [("projection", crs)];
         gridlines ax dl (VStr "grey") (VFloat 0.5) (VStr "--");
         coastlines ax (VStr "black") (VFloat 0.5)]
    ∧ deref (world o) fig = Some (OFigure [ax])
    ∧ shape (world o) ax = Some []
    ∧ position_of (world o) ax = Some (0%nat, 0%nat)
    ∧ artists_of (world o) ax
      = Some [Gridliner dl (VStr "grey") (VFloat 0.5) (VStr "--");
              CoastlineFeature (VStr "black") (VFloat 0.5)]
    ∧ deref (world o) dl = Some (OList [VStr "bottom"; VStr "left"]).
Proof.
  intros Hdl o.
  assert (1 ≤ nrows defaults) as Hr by (simpl; lia).
  assert (1 ≤ ncols defaults) as Hc by (simpl; lia).
  destruct (run_mpl_valid defaults h0 Hr Hc) as (Hres & Hgs & Htr & _).
  fold o in Hres, Hgs, Htr.
  assert (single defaults = true) as Hs by done.
  destruct (obs_single defaults h0 _ _ Hgs Hs) as (Hax & Hls & _).
  assert (0 < cells defaults)%nat as H0 by (rewrite (single_cells _ Hs); lia).
  destruct (obs_axes defaults h0 _ _ Hgs 0%nat H0) as (Harts & _ & Hpos).
  rewrite Nat.add_0_r, <- Hax in Harts, Hpos.
  exists (fig_of h0), (ax_of defaults h0), (crs_of h0),
         (VRef default_draw_labels_loc).
  split_and!.
  - exact Hres.
  - rewrite Htr, Hs, Hls, Hax. done.
  - rewrite (obs_fig defaults h0 Hr Hc _ _ Hgs), Hls, Hax. done.
  - by rewrite (obs_shape defaults h0 Hr Hc _ _ Hgs), Hs.
  - exact Hpos.
  - exact Harts.
  - by apply (obs_old defaults h0 Hr Hc _ _ Hgs).
Qed.

Lemma basemap_defaults_after_import :
  let o := run mpl (quick_draw_spatial_basemap defaults) import_heap in
  ∃ fig ax dl,
    res o = inr (fig, ax)
    ∧ artists_of (world o) ax
      = Some [Gridliner dl (VStr "grey") (VFloat 0.5) (VStr "--");
              CoastlineFeature (VStr "black") (VFloat 0.5)]
    ∧ deref (world o) dl = Some (OList [VStr "bottom"; VStr "left"]).
Proof.
  intros o.
  destruct (basemap_defaults import_heap)
    as (fig & ax & crs & dl & Hres & _ & _ & _ & _ & Harts & Hdl);
    [reflexivity |].
  exists fig, ax, dl. split_and!; [exact Hres | exact Harts | exact Hdl].
Defined.

Lemma label_selectors_forwarded a (tr : list event) :
  Forall (λ ev, forwards_labels a (ev_call ev)) tr →
  Forall (λ dl, dl = draw_labels a) (label_selectors tr).
Proof.
  unfold label_selectors. induction 1 as [| ev tr Hev _ IH]; [constructor |].
  rewrite fmap_cons. cbn [omap list_omap].
  destruct (label_selector (ev_call ev)) as [dl |] eqn:Hdl; [| done].
  constructor; [by apply Hev | done].
Qed.

Lemma label_selectors_app (tr1 tr2 : list event) :
  label_selectors (tr1 ++ tr2) = label_selectors tr1 ++ label_selectors tr2.
Proof. unfold label_selectors. by rewrite fmap_app, omap_app. Qed.

(** C6.  Whatever the provider and whatever value [draw_labels] is, the
    label selector of every gridlines call the function issues is that
    very value.  Against the toolkit double, whatever the toolkit may
    reject, a call that returns has issued [nrows * ncols] (at least
    one) gridlines calls, all of them with that value, and has left the
    object [draw_labels] refers to, if any, as it was. *)
Theorem basemap_forwards_draw_labels (a : kwargs) :
  (∀ (W : Type) (h : handler W) (w : W),
     Forall (λ dl, dl = draw_labels a)
            (label_selectors (trace (run h (quick_draw_spatial_basemap a) w))))
  ∧ ∀ (f : call → heap → option exn) (h0 : heap) fig ax,
      let o := run (inject f mpl) (quick_draw_spatial_basemap a) h0 in
      res o = inr (fig, ax) →
      label_selectors (trace o) = replicate (cells a) (draw_labels a)
      ∧ (0 < cells a)%nat
      ∧ ∀ obj, deref h0 (draw_labels a) = Some obj →
               deref (world o) (draw_labels a) = Some obj.
Proof.
  split.
  - intros W h w. apply label_selectors_forwarded, run_issues.
    apply issues_quick_draw; try done.
    intros s dl [= <-]. done.
  - intros f h0 fig ax o Hres.
    destruct (run_inject_inr f a h0 fig ax Hres)
      as (Hr & Hc & _ & _ & Hgs & Htr & _).
    fold o in Hgs, Htr.
    split_and!; [by apply (calls_of_valid_run a h0) | by apply cells_pos |].
    intros obj Hobj. destruct (draw_labels a) as [| | | | | l]; try done.
    by apply (obs_old a h0 Hr Hc _ _ Hgs).
Qed.

Lemma basemap_forwards_mapping :
  let a := with_draw_labels (VRef 1%nat) defaults in
  let o := run (inject no_fault mpl) (quick_draw_spatial_basemap a)
               heap_with_mapping in
  res o = inr (VRef 3%nat, VRef 4%nat)
  ∧ label_selectors (trace o) = [VRef 1%nat]
  ∧ deref (world o) (VRef 1%nat)
    = Some (ODict [(VStr "bottom", VStr "x"); (VStr "left", VStr "y")]).
Proof.
  intros a o.
  assert (res o = inr (VRef 3%nat, VRef 4%nat)) as Hres by reflexivity.
  destruct (basemap_forwards_draw_labels a) as [_ Hmpl].
  destruct (Hmpl no_fault heap_with_mapping (VRef 3%nat) (VRef 4%nat) Hres)
    as (Hsel & _ & Hkeep).
  split_and!; [exact Hres | exact Hsel |].
  apply Hkeep. reflexivity.
Defined.

(** C8.  Against any provider and for any arguments, [nrows] and [ncols]
    of any sign included, the first call is [PlateCarree] with the given
    [central_longitude] and, once that is answered, the second is
    [subplots] with exactly the given [nrows] and [ncols]: nothing is
    checked before the provider is asked.  If the function fails, the
    exception is the one the provider raised on the last call issued,
    every earlier call having been answered; against a provider that
    answers every call the function returns.  Against the toolkit
    double, a failure is either a rejection by the toolkit of the last
    call issued, whichever call and for whichever argument that is, or
    the [ValueError] that [subplots] raises for a row or column count
    that is not positive. *)
Theorem basemap_no_validation (a : kwargs) :
  (∀ (W : Type) (h : handler W) (w : W),
     let o := run h (quick_draw_spatial_basemap a) w in
     (∃ ans tr,
        trace o = Ev (PlateCarree (central_longitude a)) ans :: tr
        ∧ ∀ crs, ans = inr crs →
            ∃ ans' tr',
              tr = Ev (subplots (nrows a) (ncols a) [("projection", crs)]) ans'
                     :: tr')
     ∧ (∀ e, res o = inl e →
          ∃ tr c w',
            trace o = tr ++ [Ev c (inl e)]
            ∧ Forall answered tr
            ∧ h c w' = (inl e, world o))
     ∧ ((∀ c w, ∃ x w', h c w = (inr x, w')) →
        ∃ fig ax, res o = inr (fig, ax)))
  ∧ ∀ (f : call → heap → option exn) (h0 : heap) e,
      let o := run (inject f mpl) (quick_draw_spatial_basemap a) h0 in
      res o = inl e →
      ∃ tr c,
        trace o = tr ++ [Ev c (inl e)]
        ∧ (f c (world o) = Some e
           ∨ ((nrows a ≤ 0 ∨ ncols a ≤ 0)
              ∧ ∃ crs msg w',
                  c = subplots (nrows a) (ncols a) [("projection", crs)]
                  ∧ e = ValueError msg
                  ∧ mpl_subplots (nrows a) (ncols a) [("projection", crs)] w'
                    = (inl e, world o))).
Proof.
  split.
  - intros W h w o. split_and!.
    + unfold o. rewrite run_quick_draw.
      destruct (h (PlateCarree (central_longitude a)) w) as [[e | crs] w1].
      * eexists _, _. split; [done |]. intros crs [=].
      * cbv zeta. destruct (h (subplots_call a crs) w1) as [[e | fa] w2].
        -- eexists _, _. split; [done |]. intros ? [= <-]. by eexists _, _.
        -- eexists _, _. split; [done |]. intros ? [= <-]. by eexists _, _.
    + intros e He.
      destruct (run_inl h _ w e He) as (tr & c & Htr & Hok & w' & Hw).
      by exists tr, c, w'.
    + intros Hall.
      destruct (run_total h (quick_draw_spatial_basemap a) w Hall)
        as [[fig ax] Hr].
      eauto.
  - intros f h0 e o Hres.
    destruct (Z.le_gt_cases 1 (nrows a)) as [Hr | Hr];
      [destruct (Z.le_gt_cases 1 (ncols a)) as [Hc | Hc] |].
    + destruct (all_or_error_valid f a h0 Hr Hc)
        as [(fig & ax & ss & Hok & _)
           | (e' & tr & c & He' & Htr & _ & Hf & _)]; fold o in Hok || fold o in He', Htr, Hf.
      * by rewrite Hok in Hres.
      * rewrite He' in Hres. injection Hres as <-.
        exists tr, c. split; [exact Htr | by left].
    + destruct (run_inject_invalid f a h0)
        as [(e' & Hf & Ho) | [(e' & Hf & Ho) | (msg & Hm & Ho)]]; [lia | ..];
        fold o in Ho; rewrite Ho in Hres |- *; injection Hres as <-.
      * exists [], (PlateCarree (central_longitude a)). split; [done | by left].
      * eexists [_], (subplots_call a (crs_of h0)). split; [done | by left].
      * eexists [_], (subplots_call a (crs_of h0)). split; [done |].
        right. split; [lia |].
        exists (crs_of h0), msg, (h0 ++ [OPlateCarree (central_longitude a)]).
        split_and!; [done | done | exact Hm].
    + destruct (run_inject_invalid f a h0)
        as [(e' & Hf & Ho) | [(e' & Hf & Ho) | (msg & Hm & Ho)]]; [lia | ..];
        fold o in Ho; rewrite Ho in Hres |- *; injection Hres as <-.
      * exists [], (PlateCarree (central_longitude a)). split; [done | by left].
      * eexists [_], (subplots_call a (crs_of h0)). split; [done | by left].
      * eexists [_], (subplots_call a (crs_of h0)). split; [done |].
        right. split; [lia |].
        exists (crs_of h0), msg, (h0 ++ [OPlateCarree (central_longitude a)]).
        split_and!; [done | done | exact Hm].
Qed.

Lemma basemap_no_validation_nonpositive :
  let a := with_grid 0 (-1) defaults in
  (∃ fig ax, res (run lenient (quick_draw_spatial_basemap a) tt) = inr (fig, ax))
  ∧ (nrows a ≤ 0 ∨ ncols a ≤ 0).
Proof.
  intros a.
  destruct (basemap_no_validation a) as [Hany Hmpl].
  split.
  - destruct (Hany unit lenient tt) as (_ & _ & Hret).
    apply Hret. intros c w. destruct c; simpl; eauto.
  - destruct (Hmpl no_fault import_heap
                (ValueError "Number of rows must be a positive integer, not 0"))
      as (tr & c & _ & [Hf | [Hbad _]]); [reflexivity | discriminate Hf | exact Hbad].
Defined.

(** C9.  Against any provider, a call that returns has issued one
    [PlateCarree] call, then one [subplots] call, and returns the very
    pair [(fig, ax)] that [subplots] answered; every later call was
    answered and is either the read of [ax.flat] or a decoration call:
    the function asks for nothing else, be it saving or display.
    Against the toolkit double, the figure object and the flattened
    sequence of surfaces behind [ax] are after the call what they were
    when [subplots] returned. *)
Theorem basemap_returns_subplots_result (a : kwargs) :
  (∀ (W : Type) (h : handler W) (w : W) fig ax,
     let o := run h (quick_draw_spatial_basemap a) w in
     res o = inr (fig, ax) →
     ∃ crs tr,
       trace o
       = Ev (PlateCarree (central_longitude a)) (inr crs)
           :: Ev (subplots_call a crs) (inr (fig, ax)) :: tr
       ∧ Forall answered tr
       ∧ Forall (λ ev, ev_call ev = flat ax
                       ∨ is_decoration (ev_call ev) = true) tr)
  ∧ ∀ (h0 : heap) fig ax,
      let o := run mpl (quick_draw_spatial_basemap a) h0 in
      res o = inr (fig, ax) →
      deref (world o) fig = deref (constructed a h0) fig
      ∧ is_Some (deref (world o) fig)
      ∧ surfaces (world o) ax = surfaces (constructed a h0) ax
      ∧ is_Some (surfaces (world o) ax).
Proof.
  split.
  - intros W h w fig ax o Hres. unfold o in *. clear o.
    rewrite run_quick_draw in Hres |- *.
    destruct (h (PlateCarree (central_longitude a)) w) as [[e | crs] w1];
      [done |].
    cbv zeta in Hres |- *.
    destruct (h (subplots_call a crs) w1) as [[e | fa] w2]; [done |].
    cbn [res trace] in Hres |- *.
    destruct (res (run h (decorate_result a fa.2) w2)) as [e | u] eqn:Hbody;
      [done |].
    injection Hres as ->. exists crs, (trace (run h (decorate_result a ax) w2)).
    split_and!; [done | by eapply run_inr |].
    apply (run_issues h (λ c, c = flat ax ∨ is_decoration c = true)).
    apply issues_decorate_result; [by left | by right ..].
  - intros h0 fig ax o Hres.
    destruct (run_mpl_inr a h0 fig ax Hres) as (Hr & Hc & -> & ->).
    destruct (run_mpl_valid a h0 Hr Hc) as (_ & Hgs & _). fold o in Hgs.
    pose proof (grid_state_decorated a h0 Hr Hc 0 (Nat.le_0_l _)) as Hgs0.
    change (decorated a (seq (first_axes h0) 0) (constructed a h0))
      with (constructed a h0) in Hgs0.
    rewrite (obs_fig a h0 Hr Hc _ _ Hgs), (obs_fig a h0 Hr Hc _ _ Hgs0).
    rewrite (obs_surfaces a h0 Hr Hc _ _ Hgs), (obs_surfaces a h0 Hr Hc _ _ Hgs0).
    split_and!; eauto.
Qed.

Lemma basemap_returns_subplots_result_default :
  let o := run mpl (quick_draw_spatial_basemap defaults) import_heap in
  res o = inr (VRef 2%nat, VRef 3%nat)
  ∧ ∃ crs tr,
      trace o
      = Ev (PlateCarree (VFloat 0)) (inr crs)
          :: Ev (subplots_call defaults crs) (inr (VRef 2%nat, VRef 3%nat))
          :: tr.
Proof.
  intros o.
  assert (res o = inr (VRef 2%nat, VRef 3%nat)) as Hres by reflexivity.
  split; [exact Hres |].
  destruct (basemap_returns_subplots_result defaults) as [Hany _].
  destruct (Hany heap mpl import_heap (VRef 2%nat) (VRef 3%nat) Hres)
    as (crs & tr & Htr & _).
  exists crs, tr. exact Htr.
Defined.

(** The double changes axes only: any other object stays as it is. *)
Lemma mpl_keeps (c : call) (h : heap) l obj :
  h !! l = Some obj →
  (∀ pos proj arts, obj ≠ OAxes pos proj arts) →
  (mpl c h).2 !! l = Some obj.
Proof.
  intros Hl Hobj. destruct c as [cl | nr nc kw | self | self dl co al ls | self ec lw].
  - by apply lookup_app_l_Some.
  - change (mpl (subplots nr nc kw) h) with (mpl_subplots nr nc kw h).
    unfold mpl_subplots.
    destruct (nr <=? 0); [by apply lookup_app_l_Some |].
    destruct (nc <=? 0); [by apply lookup_app_l_Some |].
    destruct (_ && _); [by apply lookup_app_l_Some |].
    destruct (_ || _); by do 2 apply lookup_app_l_Some.
  - change (mpl (flat self) h) with (mpl_flat self h). unfold mpl_flat.
    destruct self as [| | | | | l0]; try done.
    by destruct (h !! l0) as [[] |].
  - change (mpl (gridlines self dl co al ls) h)
      with (mpl_decorate "gridlines" (Gridliner dl co al ls) self h).
    unfold mpl_decorate. destruct self as [| | | | | l0]; try done.
    destruct (is_axes h (VRef l0)); [| done]. simpl.
    destruct (decide (l0 = l)) as [-> | Hne].
    + rewrite list_lookup_alter_eq, Hl. simpl. f_equal.
      destruct obj; try done. by destruct (Hobj position projection artists).
    + by rewrite list_lookup_alter_ne.
  - change (mpl (coastlines self ec lw) h)
      with (mpl_decorate "coastlines" (CoastlineFeature (VStr "black") lw) self h).
    unfold mpl_decorate. destruct self as [| | | | | l0]; try done.
    destruct (is_axes h (VRef l0)); [| done]. simpl.
    destruct (decide (l0 = l)) as [-> | Hne].
    + rewrite list_lookup_alter_eq, Hl. simpl. f_equal.
      destruct obj; try done. by destruct (Hobj position projection artists).
    + by rewrite list_lookup_alter_ne.
Qed.

Lemma issues_repeat_calls (P : call → Prop) a n :
  issues P (quick_draw_spatial_basemap a) → issues P (repeat_calls n a).
Proof.
  intros Hp. induction n as [| n IH]; [done |].
  cbn [repeat_calls]. by apply issues_bind.
Qed.

(** C10.  The function has no effect of its own on the provider's
    state: over any number of calls in a row, whatever every provider
    call preserves is preserved, and every gridlines call is handed the
    [draw_labels] value the caller gave.  Against the toolkit double,
    any number of calls with no arguments, started on a heap that holds
    the default label list, all return, hand each gridlines call the
    reference to that one list, and leave the list as
    [["bottom", "left"]]. *)
Theorem basemap_preserves_arguments :
  (∀ (W : Type) (h : handler W) (I : W → Prop) (a : kwargs) (n : nat) (w : W),
     (∀ c w, I w → I (h c w).2) → I w →
     let o := run h (repeat_calls n a) w in
     I (world o)
     ∧ Forall (λ dl, dl = draw_labels a) (label_selectors (trace o)))
  ∧ ∀ (n : nat) (h0 : heap),
      h0 !! default_draw_labels_loc
      = Some (OList [VStr "bottom"; VStr "left"]) →
      let o := run mpl (repeat_calls n defaults) h0 in
      res o = inr tt
      ∧ world o !! default_draw_labels_loc
        = Some (OList [VStr "bottom"; VStr "left"])
      ∧ label_selectors (trace o)
        = replicate n (VRef default_draw_labels_loc).
Proof.
  split.
  - intros W h I a n w Hh Hw o. split.
    + by apply run_preserves.
    + apply label_selectors_forwarded, run_issues, issues_repeat_calls.
      apply issues_quick_draw; try done.
      intros s dl [= <-]. done.
  - intros n. induction n as [| n IH]; intros h0 Hdl o; [done |].
    assert (1 ≤ nrows defaults) as Hr by (simpl; lia).
    assert (1 ≤ ncols defaults) as Hc by (simpl; lia).
    destruct (run_mpl_valid defaults h0 Hr Hc) as (Hres & Hgs & Htr & _).
    pose proof (obs_old defaults h0 Hr Hc _ _ Hgs _ _ Hdl) as Hdl'.
    destruct (IH _ Hdl') as (IHres & IHdl & IHsel).
    destruct (calls_of_valid_run defaults h0 _ Htr) as (_ & _ & Hsel).
    unfold o. cbn [repeat_calls].
    rewrite (run_bind_inr mpl _ _ _ _ Hres). cbn [res world trace].
    rewrite label_selectors_app, IHsel, Hsel. done.
Qed.

Lemma basemap_preserves_default_labels :
  let o := run mpl (repeat_calls 3 defaults) import_heap in
  res o = inr tt
  ∧ world o !! default_draw_labels_loc
    = Some (OList [VStr "bottom"; VStr "left"])
  ∧ Forall (λ dl, dl = VRef default_draw_labels_loc)
           (label_selectors (trace o)).
Proof.
  intros o.
  destruct basemap_preserves_arguments as [Hany Hmpl].
  destruct (Hmpl 3%nat import_heap) as (Hres & _); [reflexivity |].
  split; [exact Hres |].
  apply (Hany heap mpl
           (λ h : heap, h !! default_draw_labels_loc
                        = Some (OList [VStr "bottom"; VStr "left"]))
           defaults 3%nat import_heap).
  - intros c h Hh. by apply mpl_keeps.
  - reflexivity.
Defined.

(** C7, as the code has it.  Against the toolkit double with failures
    injected at will, every call either returns, with every call
    answered and every surface carrying the full decoration, or fails
    and returns nothing; the exception is then the one raised at the
    last call issued, every earlier call having been answered: the one
    injected there or, for a row or column count that is not positive,
    the [ValueError] of [subplots].  If the failing call is not a
    decoration call, no decoration call has been issued.  If it is the
    gridlines or the coastlines call on the [k]-th surface in flattened
    order, the surfaces before it carry the full decoration, the
    surfaces after it carry none, and the [k]-th carries none when its
    gridlines call failed and its gridliner alone when its coastlines
    call failed. *)
Theorem basemap_all_or_error
    (f : call → heap → option exn) (a : kwargs) (h0 : heap) :
  let o := run (inject f mpl) (quick_draw_spatial_basemap a) h0 in
  (∃ fig ax ss,
     res o = inr (fig, ax)
     ∧ Forall answered (trace o)
     ∧ surfaces (world o) ax = Some ss
     ∧ ∀ s, s ∈ ss → artists_of (world o) s = Some (full_decoration a))
  ∨ ∃ e tr c,
      res o = inl e
      ∧ trace o = tr ++ [Ev c (inl e)]
      ∧ Forall answered tr
      ∧ (f c (world o) = Some e
         ∨ ((nrows a ≤ 0 ∨ ncols a ≤ 0)
            ∧ ∃ crs msg w',
                c = subplots_call a crs
                ∧ e = ValueError msg
                ∧ mpl c w' = (inl e, world o)))
      ∧ (is_decoration c = false → decoration_calls (trace o) = [])
      ∧ (is_decoration c = true →
           ∃ crs fig ax ss k s,
             Ev (subplots_call a crs) (inr (fig, ax)) ∈ tr
             ∧ surfaces (world o) ax = Some ss
             ∧ ss !! k = Some s
             ∧ receiver c = Some s
             ∧ artists_of (world o) s = Some (left_on_failure a c)
             ∧ (∀ i t, ss !! i = Some t → (i < k)%nat →
                       artists_of (world o) t = Some (full_decoration a))
             ∧ (∀ i t, ss !! i = Some t → (k < i)%nat →
                       artists_of (world o) t = Some [])).
Proof.
  intros o.
  assert (nrows a ≤ 0 ∨ ncols a ≤ 0 →
          ∃ e tr c,
            o = Outcome (inl e) (world o) (tr ++ [Ev c (inl e)])
            ∧ Forall answered tr
            ∧ is_decoration c = false
            ∧ decoration_calls (tr ++ [Ev c (inl e)]) = []
            ∧ (f c (world o) = Some e
               ∨ ∃ crs msg w', c = subplots_call a crs ∧ e = ValueError msg
                               ∧ mpl c w' = (inl e, world o))) as Hinvalid.
  { intros Hbad.
    destruct (run_inject_invalid f a h0 Hbad)
      as [(e & Hf & Ho) | [(e & Hf & Ho) | (msg & Hm & Ho)]];
      fold o in Ho; rewrite Ho; cbn [world].
    - exists e, [], (PlateCarree (central_longitude a)).
      split_and!; try done. by left.
    - eexists e, [_], (subplots_call a (crs_of h0)).
      split_and!; try done; [by repeat constructor | by left].
    - eexists (ValueError msg), [_], (subplots_call a (crs_of h0)).
      split_and!; try done; [by repeat constructor |].
      right.
      exists (crs_of h0), msg, (h0 ++ [OPlateCarree (central_longitude a)]).
      split_and!; [done | done | exact Hm]. }
  destruct (Z.le_gt_cases 1 (nrows a)) as [Hr | Hr];
    [destruct (Z.le_gt_cases 1 (ncols a)) as [Hc | Hc] |].
  - destruct (all_or_error_valid f a h0 Hr Hc)
      as [Hok | (e & tr & c & He & Htr & Hans & Hf & Hnd & Hd)];
      [by left |].
    right. exists e, tr, c. split_and!; try done. by left.
  - right. destruct Hinvalid as (e & tr & c & Ho & Hans & Hnd & Hnone & Horig);
      [lia |].
    exists e, tr, c. rewrite Ho. cbn [res world trace].
    rewrite Ho in Horig. cbn [world] in Horig.
    split_and!; try done.
    + destruct Horig as [? | ?]; [by left | right; split; [lia | done]].
    + rewrite Hnd. done.
  - right. destruct Hinvalid as (e & tr & c & Ho & Hans & Hnd & Hnone & Horig);
      [lia |].
    exists e, tr, c. rewrite Ho. cbn [res world trace].
    rewrite Ho in Horig. cbn [world] in Horig.
    split_and!; try done.
    + destruct Horig as [? | ?]; [by left | right; split; [lia | done]].
    + rewrite Hnd. done.
Qed.

Lemma basemap_all_or_error_1x2 :
  let a := with_grid 1 2 defaults in
  let o := run (inject (coastlines_fault 3) mpl)
               (quick_draw_spatial_basemap a) import_heap in
  ∃ e tr c,
    res o = inl e
    ∧ trace o = tr ++ [Ev c (inl e)]
    ∧ coastlines_fault 3 c (world o) = Some e.
Proof.
  intros a o.
  destruct (basemap_all_or_error (coastlines_fault 3) a import_heap)
    as [(fig & ax & ss & Hres & _)
       | (e & tr & c & Hres & Htr & _ & [Hf | [Hbad _]] & _)].
  - exfalso. vm_compute in Hres. discriminate Hres.
  - exists e, tr, c. split_and!; [exact Hres | exact Htr | exact Hf].
  - exfalso. simpl in Hbad. lia.
Defined.

(** C7, as the claim words it, fails when the coastlines call is the one
    that fails: on a 1x2 grid whose first surface rejects its
    coastlines, the call fails, yet that surface is not left
    undecorated, it keeps the gridliner it was given just before. *)
Lemma basemap_failed_surface_keeps_gridliner :
  let a := with_grid 1 2 defaults in
  let o := run (inject (coastlines_fault 3) mpl)
               (quick_draw_spatial_basemap a) import_heap in
  res o = inl (ValueError "coastlines")
  ∧ last (trace o)
    = Some (Ev (coastlines_call a (VRef 3%nat))
               (inl (ValueError "coastlines")))
  ∧ (VRef <$> axes_locs a import_heap) !! 0%nat = Some (VRef 3%nat)
  ∧ artists_of (world o) (VRef 3%nat) = Some [grid_art a]
  ∧ artists_of (world o) (VRef 3%nat) ≠ Some []
  ∧ artists_of (world o) (VRef 4%nat) = Some [].
Proof.
  intros a o. split_and!.
  - vm_compute. reflexivity.
  - vm_compute. reflexivity.
  - vm_compute. reflexivity.
  - vm_compute. reflexivity.
  - vm_compute. discriminate.
  - vm_compute. reflexivity.
Qed.

(** * Further properties of the function *)

(** ** Any provider: the calls of a run, failing or not *)

Lemma decoration_calls_cons_deco ev (tr : list event) :
  is_decoration (ev_call ev) = true →
  decoration_calls (ev :: tr) = ev_call ev :: decoration_calls tr.
Proof.
  intros Hev. unfold decoration_calls. rewrite fmap_cons.
  by rewrite filter_cons_True.
Qed.

Lemma decoration_calls_cons_other ev (tr : list event) :
  is_decoration (ev_call ev) = false →
  decoration_calls (ev :: tr) = decoration_calls tr.
Proof.
  intros Hev. unfold decoration_calls. rewrite fmap_cons.
  rewrite filter_cons_False; [done |]. by rewrite Hev.
Qed.

Lemma decorations_cons a s ss :
  decorations a (s :: ss)
  = gridlines_call a s :: coastlines_call a s :: decorations a ss.
Proof. done. Qed.

Section Pairing.
Context {W : Type} (h : handler W) (a : kwargs).

(** The loop, against any provider: which surfaces it reached and what
    it called on them. *)
Lemma loop_pairing ss w :
  let o := run h (for_each ss (decorate a)) w in
  gridlined (trace o) `prefix_of` ss
  ∧ decoration_calls (trace o) `prefix_of` decorations a (gridlined (trace o))
  ∧ omap subplots_answered (trace o) = []
  ∧ omap flat_answered (trace o) = []
  ∧ Forall (λ ev, is_flat (ev_call ev) = false) (trace o)
  ∧ (∀ u, res o = inr u →
       gridlined (trace o) = ss
       ∧ ev_call <$> trace o = decorations a ss
       ∧ decoration_calls (trace o) = decorations a ss).
Proof.
  revert w. induction ss as [| s ss IH]; intros w o.
  { unfold o. cbn. split_and!; done. }
  unfold o. clear o. cbn [for_each].
  pose proof (run_decorate h a s w) as Hstep.
  destruct (h (gridlines_call a s) w) as [[e | x] w1].
  { rewrite (run_bind_inl h _ _ _ e) by (by rewrite Hstep).
    rewrite Hstep. cbn [res trace].
    split_and!; try done.
    - apply prefix_cons, prefix_nil.
    - apply prefix_cons, prefix_nil.
    - by repeat constructor. }
  destruct (h (coastlines_call a s) w1) as [[e | y] w2].
  { rewrite (run_bind_inl h _ _ _ e) by (by rewrite Hstep).
    rewrite Hstep. cbn [res trace].
    split_and!; try done.
    - apply prefix_cons, prefix_nil.
    - by repeat constructor. }
  rewrite (run_bind_inr h _ _ _ tt) by (by rewrite Hstep).
  rewrite Hstep. cbn [res world trace].
  destruct (IH w2) as (Hrecv & Hpair & Hsp & Hfl & Hnf & Hok).
  set (loop := run h (for_each ss (decorate a)) w2) in *.
  change ([Ev (gridlines_call a s) (inr x); Ev (coastlines_call a s) (inr y)]
            ++ trace loop)
    with (Ev (gridlines_call a s) (inr x)
            :: Ev (coastlines_call a s) (inr y) :: trace loop).
  change (gridlined (Ev (gridlines_call a s) (inr x)
                       :: Ev (coastlines_call a s) (inr y) :: trace loop))
    with (s :: gridlined (trace loop)).
  rewrite !decoration_calls_cons_deco by done.
  rewrite decorations_cons. cbn [ev_call].
  split_and!.
  - by apply prefix_cons.
  - by do 2 apply prefix_cons.
  - exact Hsp.
  - exact Hfl.
  - by do 2 (constructor; [done |]).
  - intros u Hu. destruct (Hok u Hu) as (-> & Hcalls & ->).
    rewrite !fmap_cons, Hcalls. done.
Qed.

(** The function, against any provider: the events up to the loop, and
    the loop. *)
Lemma run_quick_draw_trace w :
  let o := run h (quick_draw_spatial_basemap a) w in
  (∃ e, res o = inl e
        ∧ trace o = [Ev (PlateCarree (central_longitude a)) (inl e)])
  ∨ (∃ crs e,
       res o = inl e
       ∧ trace o = [Ev (PlateCarree (central_longitude a)) (inr crs);
                    Ev (subplots_call a crs) (inl e)])
  ∨ (∃ crs fig ax e,
       single a = false
       ∧ res o = inl e
       ∧ trace o = [Ev (PlateCarree (central_longitude a)) (inr crs);
                    Ev (subplots_call a crs) (inr (fig, ax));
                    Ev (flat ax) (inl e)])
  ∨ (∃ crs fig ax pre ss w',
       let loop := run h (for_each ss (decorate a)) w' in
       trace o = Ev (PlateCarree (central_longitude a)) (inr crs)
                   :: Ev (subplots_call a crs) (inr (fig, ax))
                   :: pre ++ trace loop
       ∧ res o = match res loop with
                 | inl e => inl e
                 | inr _ => inr (fig, ax)
                 end
       ∧ world o = world loop
       ∧ ((single a = true ∧ pre = [] ∧ ss = [ax])
          ∨ (single a = false ∧ pre = [Ev (flat ax) (inr ss)]))).
Proof.
  intros o. unfold o. rewrite run_quick_draw.
  destruct (h (PlateCarree (central_longitude a)) w) as [[e | crs] w1].
  { left. by exists e. }
  cbv zeta. destruct (h (subplots_call a crs) w1) as [[e | [fig ax]] w2].
  { right. left. by exists crs, e. }
  right. right. cbn [snd]. unfold decorate_result. fold (single a).
  destruct (single a) eqn:Hs.
  - right. exists crs, fig, ax, [], [ax], w2. cbv zeta.
    rewrite run_for_each_one. split_and!; try done. by left.
  - cbn [run]. destruct (h (flat ax) w2) as [[e | ss] w3].
    + left. by exists crs, fig, ax, e.
    + right. exists crs, fig, ax, [Ev (flat ax) (inr ss)], ss, w3.
      cbv zeta. cbn [res world trace]. split_and!; try done. by right.
Qed.
End Pairing.

Lemma gridlined_cons_other ev (tr : list event) :
  gridlines_receiver (ev_call ev) = None → gridlined (ev :: tr) = gridlined tr.
Proof.
  intros Hev. unfold gridlined. rewrite fmap_cons. cbn [omap list_omap].
  by rewrite Hev.
Qed.

Lemma subplots_answer_head a cl r crs fa (tr : list event) :
  subplots_answer (Ev (PlateCarree cl) r :: Ev (subplots_call a crs) (inr fa) :: tr)
  = Some fa.
Proof. done. Qed.

Lemma flat_answer_head a cl r crs r' ax ss (tr : list event) :
  flat_answer (Ev (PlateCarree cl) r :: Ev (subplots_call a crs) r'
                 :: Ev (flat ax) (inr ss) :: tr)
  = Some ss.
Proof. by destruct r'. Qed.

(** The calls of a run that returns, against any provider: one
    [PlateCarree], one [subplots] carrying its answer, the read of
    [ax.flat] unless the request is 1x1, then gridlines and coastlines on
    each surface to decorate, in the order they were handed out and as
    often as they were handed out; the surfaces are the object
    [subplots] answered for a 1x1 request and the elements [ax.flat]
    yielded otherwise. *)
Theorem basemap_call_sequence {W : Type} (h : handler W) (a : kwargs) (w : W)
    fig ax :
  let o := run h (quick_draw_spatial_basemap a) w in
  res o = inr (fig, ax) →
  subplots_answer (trace o) = Some (fig, ax)
  ∧ gridlined (trace o) = targets a (trace o)
  ∧ ∃ crs,
      Ev (PlateCarree (central_longitude a)) (inr crs) ∈ trace o
      ∧ ev_call <$> trace o
        = PlateCarree (central_longitude a)
            :: subplots_call a crs
            :: (if single a then [] else [flat ax])
            ++ decorations a (targets a (trace o)).
Proof.
  intros o Hres.
  destruct (run_quick_draw_trace h a w)
    as [(e & He & _) | [(crs & e & He & _) | [(crs & fig' & ax' & e & _ & He & _)
       | (crs & fig' & ax' & pre & ss & w' & Htr & Hr & _ & Hcase)]]];
    fold o in He || fold o in Htr, Hr; try congruence.
  cbv zeta in Htr, Hr.
  destruct (loop_pairing h a ss w') as (_ & _ & _ & _ & _ & Hok).
  destruct (res (run h (for_each ss (decorate a)) w')) as [e | u] eqn:Hloop;
    [congruence |].
  destruct (Hok u eq_refl) as (Hrecv & Hcalls & _).
  rewrite Hres in Hr. injection Hr as <- <-. rewrite Htr.
  rewrite subplots_answer_head. unfold targets.
  destruct Hcase as [(Hs & -> & ->) | (Hs & ->)]; rewrite Hs.
  - rewrite subplots_answer_head.
    rewrite !gridlined_cons_other by done. cbn [app].
    split_and!; [done | exact Hrecv |].
    exists crs. split; [apply list_elem_of_here |].
    by rewrite !fmap_cons, Hcalls.
  - cbn [app]. rewrite flat_answer_head. cbn [default from_option].
    rewrite !gridlined_cons_other by done.
    split_and!; [done | exact Hrecv |].
    exists crs. split; [apply list_elem_of_here |].
    by rewrite !fmap_cons, Hcalls.
Qed.

Lemma basemap_call_sequence_1x2 :
  let a := with_grid 1 2 defaults in
  let o := run mpl (quick_draw_spatial_basemap a) import_heap in
  gridlined (trace o) = [VRef 3%nat; VRef 4%nat]
  ∧ targets a (trace o) = [VRef 3%nat; VRef 4%nat].
Proof.
  intros a o.
  destruct (basemap_call_sequence mpl a import_heap (VRef 2%nat) (VRef 5%nat))
    as (_ & Hrecv & _); [reflexivity |].
  fold o in Hrecv. split; [| rewrite <- Hrecv]; reflexivity.
Defined.

(** Against any provider and in any run, failing or not, every call
    issued carries the caller's arguments and nothing else:
    [PlateCarree] the central longitude, [subplots] the given [nrows]
    and [ncols] and a [subplot_kw] with the single key ["projection"],
    every gridlines call the label selector and the three gridline
    styles, every coastlines call the two coastline styles. *)
Theorem basemap_issues_own_calls {W : Type} (h : handler W) (a : kwargs) (w : W) :
  Forall (λ ev, own_call a (ev_call ev))
         (trace (run h (quick_draw_spatial_basemap a) w)).
Proof.
  apply run_issues. simpl. split; [done |]. intros crs.
  split; [by eauto |]. intros [fig ax].
  change (issues (own_call a)
            (bind (decorate_result a ax) (λ _, Ret (fig, ax)))).
  apply issues_bind; [| done].
  by apply issues_decorate_result.
Qed.

(** Against any provider and in any run, failing or not, the decoration
    calls pair up surface by surface: they are an initial part of
    "gridlines then coastlines" over the surfaces that received a
    gridlines call, so a coastlines call always comes right after the
    gridlines call on the same surface, and a surface is never given a
    second decoration before the previous surface has had both. *)
Theorem basemap_coastlines_follow_gridlines
    {W : Type} (h : handler W) (a : kwargs) (w : W) :
  let o := run h (quick_draw_spatial_basemap a) w in
  decoration_calls (trace o) `prefix_of` decorations a (gridlined (trace o)).
Proof.
  intros o.
  destruct (run_quick_draw_trace h a w)
    as [(e & _ & Htr) | [(crs & e & _ & Htr) | [(crs & fig & ax & e & _ & _ & Htr)
       | (crs & fig & ax & pre & ss & w' & Htr & _ & _ & Hcase)]]];
    fold o in Htr; rewrite Htr; try apply prefix_nil.
  destruct (loop_pairing h a ss w') as (_ & Hpair & _).
  destruct Hcase as [(_ & -> & _) | (_ & ->)]; cbn [app];
    rewrite !gridlined_cons_other, !decoration_calls_cons_other by done;
    exact Hpair.
Qed.

(** Against any provider and in any run, failing or not, the surfaces
    given a gridlines call are an initial part of the surfaces handed
    out: of the one object [subplots] answered when the request is 1x1,
    of the elements [ax.flat] yielded otherwise (none when a call before
    failed).  With a 1x1 request [ax.flat] is never read. *)
Theorem basemap_decorates_what_was_handed_out
    {W : Type} (h : handler W) (a : kwargs) (w : W) :
  let o := run h (quick_draw_spatial_basemap a) w in
  gridlined (trace o) `prefix_of` targets a (trace o)
  ∧ (nrows a = 1 ∧ ncols a = 1 →
     Forall (λ ev, is_flat (ev_call ev) = false) (trace o)).
Proof.
  intros o.
  destruct (run_quick_draw_trace h a w)
    as [(e & _ & Htr) | [(crs & e & _ & Htr) | [(crs & fig & ax & e & Hs & _ & Htr)
       | (crs & fig & ax & pre & ss & w' & Htr & _ & _ & Hcase)]]];
    fold o in Htr; rewrite Htr.
  - split; [apply prefix_nil | by repeat constructor].
  - split; [apply prefix_nil | by repeat constructor].
  - split; [apply prefix_nil |]. intros Hone%single_iff. congruence.
  - destruct (loop_pairing h a ss w') as (Hrecv & _ & _ & _ & Hnf & _).
    unfold targets.
    destruct Hcase as [(Hs & -> & ->) | (Hs & ->)]; rewrite Hs.
    + cbn [app]. rewrite subplots_answer_head, !gridlined_cons_other by done.
      split; [exact Hrecv |]. intros _. by do 2 (constructor; [done |]).
    + cbn [app]. rewrite flat_answer_head, !gridlined_cons_other by done.
      split; [exact Hrecv |]. intros Hone%single_iff. congruence.
Qed.

Lemma basemap_decorates_what_was_handed_out_default :
  Forall (λ ev, is_flat (ev_call ev) = false)
         (trace (run lenient (quick_draw_spatial_basemap defaults) tt)).
Proof.
  destruct (basemap_decorates_what_was_handed_out lenient defaults tt)
    as [_ Hnf].
  apply Hnf. split; reflexivity.
Defined.

(** When [ax.flat] yields nothing, the function issues no decoration
    call and returns what [subplots] answered. *)
Theorem basemap_empty_flat {W : Type} (h : handler W) (a : kwargs) (w : W)
    crs w1 fig ax w2 w3 :
  ¬ (nrows a = 1 ∧ ncols a = 1) →
  h (PlateCarree (central_longitude a)) w = (inr crs, w1) →
  h (subplots_call a crs) w1 = (inr (fig, ax), w2) →
  h (flat ax) w2 = (inr [], w3) →
  run h (quick_draw_spatial_basemap a) w
  = Outcome (inr (fig, ax)) w3
      [Ev (PlateCarree (central_longitude a)) (inr crs);
       Ev (subplots_call a crs) (inr (fig, ax));
       Ev (flat ax) (inr [])].
Proof.
  intros Hs%single_false_iff Hpc Hsp Hfl.
  rewrite run_quick_draw, Hpc. cbv zeta. rewrite Hsp. cbn [snd].
  unfold decorate_result. fold (single a). rewrite Hs.
  cbn [run]. rewrite Hfl. done.
Qed.

Lemma basemap_empty_flat_0x0 :
  res (run lenient (quick_draw_spatial_basemap (with_grid 0 0 defaults)) tt)
  = inr (VNone, VNone).
Proof.
  rewrite (basemap_empty_flat lenient (with_grid 0 0 defaults) tt
             VNone tt VNone VNone tt tt); [reflexivity | | done..].
  simpl. lia.
Defined.

(** ** The toolkit double: what a call leaves alone *)

(** Against the toolkit double, with failures injected at will and for
    any arguments, a call leaves every object that was on the heap
    before it exactly as it was, whether the call returns or fails: the
    function only decorates surfaces made by its own [subplots] call, so
    the figures and surfaces of earlier calls are never touched. *)
Theorem basemap_keeps_earlier_objects
    (f : call → heap → option exn) (a : kwargs) (h0 : heap) l obj :
  h0 !! l = Some obj →
  world (run (inject f mpl) (quick_draw_spatial_basemap a) h0) !! l = Some obj.
Proof.
  intros Hl.
  assert (nrows a ≤ 0 ∨ ncols a ≤ 0 →
          world (run (inject f mpl) (quick_draw_spatial_basemap a) h0) !! l
          = Some obj) as Hinvalid.
  { intros Hbad.
    destruct (run_inject_invalid f a h0 Hbad)
      as [(e & _ & ->) | [(e & _ & ->) | (msg & _ & ->)]]; cbn [world].
    - exact Hl.
    - by apply lookup_app_l_Some.
    - by do 2 apply lookup_app_l_Some. }
  destruct (Z.le_gt_cases 1 (nrows a)) as [Hr | Hr];
    [destruct (Z.le_gt_cases 1 (ncols a)) as [Hc | Hc] |].
  - assert (∀ H arts, grid_state a h0 H arts → H !! l = Some obj) as Hgrid.
    { intros H arts HH. by apply (obs_old a h0 Hr Hc H arts HH). }
    assert (world (run (inject f mpl)
                       (for_each (VRef <$> axes_locs a h0) (decorate a))
                       (constructed a h0)) !! l = Some obj) as Hloop.
    { destruct (loop_outcome f a h0 Hr Hc)
        as [(_ & _ & Hgs) | (e & tr & c & k & _ & _ & _ & _ & _ & _ & _ & Hgs)];
        by eapply Hgrid. }
    rewrite (run_inject_mpl f a h0 Hr Hc).
    destruct (f (PlateCarree (central_longitude a)) h0) as [e |]; [done |].
    cbv zeta. destruct (f (subplots_call a (crs_of h0)) _) as [e |].
    { by apply lookup_app_l_Some. }
    cbn [world]. rewrite (run_decorate_result f a h0 Hr Hc).
    destruct (single a); [exact Hloop |].
    destruct (f (flat (ax_of a h0)) (constructed a h0)) as [e |].
    + by apply constructed_old.
    + exact Hloop.
  - apply Hinvalid. lia.
  - apply Hinvalid. lia.
Qed.

Lemma basemap_keeps_earlier_objects_default_list :
  world (run (inject (coastlines_fault 3) mpl)
             (quick_draw_spatial_basemap (with_grid 1 2 defaults))
             import_heap) !! 0%nat
  = Some (OList [VStr "bottom"; VStr "left"]).
Proof.
  apply (basemap_keeps_earlier_objects (coastlines_fault 3)
           (with_grid 1 2 defaults) import_heap 0%nat).
  reflexivity.
Defined.

(** Against the toolkit double, whatever the toolkit may reject: when
    two calls in a row both return, they return different figures and
    disjoint sets of surfaces, and after the second call every surface
    of the first still carries exactly the decoration of the first
    call's styles while every surface of the second carries that of the
    second. *)
Theorem basemap_two_calls
    (f : call → heap → option exn) (a1 a2 : kwargs) (h0 : heap)
    fig1 ax1 fig2 ax2 :
  let o := run (inject f mpl) (two_calls a1 a2) h0 in
  res o = inr ((fig1, ax1), (fig2, ax2)) →
  fig1 ≠ fig2
  ∧ ∃ ss1 ss2,
      surfaces (world o) ax1 = Some ss1
      ∧ surfaces (world o) ax2 = Some ss2
      ∧ (∀ s, s ∈ ss1 → s ∉ ss2)
      ∧ (∀ s, s ∈ ss1 → artists_of (world o) s = Some (full_decoration a1))
      ∧ (∀ s, s ∈ ss2 → artists_of (world o) s = Some (full_decoration a2)).
Proof.
  intros o Hres. unfold o in Hres.
  change (two_calls a1 a2)
    with (bind (quick_draw_spatial_basemap a1) (λ r1,
            bind (quick_draw_spatial_basemap a2) (λ r2, Ret (r1, r2))))
    in Hres, o.
  apply run_bind_inr_inv in Hres as ([f1 x1] & Hres1 & Hres & Hw1).
  fold o in Hw1.
  set (o1 := run (inject f mpl) (quick_draw_spatial_basemap a1) h0) in *.
  apply run_bind_inr_inv in Hres as ([f2 x2] & Hres2 & Hres & Hw2).
  set (o2 := run (inject f mpl) (quick_draw_spatial_basemap a2) (world o1))
    in *.
  cbn [run res world] in Hres, Hw2. injection Hres as -> -> -> ->.
  assert (world o = world o2) as Hw by (by rewrite Hw1, Hw2).
  clear Hw1 Hw2.
  destruct (run_inject_inr f a1 h0 fig1 ax1 Hres1)
    as (Hr1 & Hc1 & -> & -> & Hgs1 & _).
  destruct (run_inject_inr f a2 (world o1) fig2 ax2 Hres2)
    as (Hr2 & Hc2 & -> & -> & Hgs2 & _).
  fold o1 in Hgs1. fold o2 in Hgs2.
  assert (∀ l obj, world o1 !! l = Some obj → world o2 !! l = Some obj)
    as Hframe.
  { intros l obj. apply (obs_old a2 (world o1) Hr2 Hc2 _ _ Hgs2). }
  assert (∀ s, s ∈ VRef <$> axes_locs a1 h0 →
               artists_of (world o1) s = Some (full_decoration a1)) as Harts1.
  { intros s (i & Hi & ->)%axes_locs_elem.
    destruct (obs_axes a1 h0 _ _ Hgs1 _ Hi) as (-> & _).
    by rewrite progress_all. }
  rewrite Hw. split.
  { pose proof (obs_fig a1 h0 Hr1 Hc1 _ _ Hgs1) as Hfig.
    unfold fig_of, deref in Hfig. apply lookup_lt_Some in Hfig.
    unfold fig_of. intros Heq.
    assert (S (length h0) = S (length (world o1))) as Hlen by congruence. lia. }
  exists (VRef <$> axes_locs a1 h0), (VRef <$> axes_locs a2 (world o1)).
  split_and!.
  - apply (surfaces_frame (world o1)); [exact Hframe |].
    by apply (obs_surfaces a1 h0 Hr1 Hc1 _ _ Hgs1).
  - by apply (obs_surfaces a2 (world o1) Hr2 Hc2 _ _ Hgs2).
  - intros s Hs1 (j & Hj & Heq)%axes_locs_elem.
    pose proof (Harts1 s Hs1) as Ha. rewrite Heq in Ha.
    unfold artists_of, deref in Ha.
    destruct (world o1 !! (first_axes (world o1) + j)%nat) eqn:Hlk; [| done].
    apply lookup_lt_Some in Hlk. unfold first_axes in Hlk. lia.
  - intros s Hs1. apply (artists_of_frame (world o1)); [exact Hframe |].
    by apply Harts1.
  - intros s (i & Hi & ->)%axes_locs_elem.
    destruct (obs_axes a2 (world o1) _ _ Hgs2 _ Hi) as (-> & _).
    by rewrite progress_all.
Qed.

Lemma basemap_two_calls_default_then_2x2 :
  let o := run (inject no_fault mpl)
               (two_calls defaults (with_grid 2 2 defaults)) import_heap in
  res o = inr ((VRef 2%nat, VRef 3%nat), (VRef 5%nat, VRef 10%nat))
  ∧ VRef 2%nat ≠ VRef 5%nat
  ∧ ∃ ss1 ss2,
      surfaces (world o) (VRef 3%nat) = Some ss1
      ∧ surfaces (world o) (VRef 10%nat) = Some ss2
      ∧ ∀ s, s ∈ ss1 → s ∉ ss2.
Proof.
  intros o.
  assert (res o = inr ((VRef 2%nat, VRef 3%nat), (VRef 5%nat, VRef 10%nat)))
    as Hres by reflexivity.
  destruct (basemap_two_calls no_fault defaults (with_grid 2 2 defaults)
              import_heap _ _ _ _ Hres)
    as (Hne & ss1 & ss2 & Hs1 & Hs2 & Hdisj & _).
  split; [exact Hres |]. split; [exact Hne |].
  exists ss1, ss2. split; [exact Hs1 |]. split; [exact Hs2 | exact Hdisj].
Defined.

(** Against the toolkit double, whatever the toolkit may reject: when a
    call with both [nrows] and [ncols] above 1 returns, the returned
    array can be indexed by row and column: [ax[i, j]] is the surface at
    flat index [i * ncols + j], it is the subplot of grid cell [(i, j)],
    and it carries the full decoration. *)
Theorem basemap_grid_indexing
    (f : call → heap → option exn) (a : kwargs) (h0 : heap) fig ax
    (i j : nat) :
  1 < nrows a → 1 < ncols a →
  (i < Z.to_nat (nrows a))%nat → (j < Z.to_nat (ncols a))%nat →
  let o := run (inject f mpl) (quick_draw_spatial_basemap a) h0 in
  res o = inr (fig, ax) →
  ∃ ss s,
    item2 (world o) ax i j = Some s
    ∧ surfaces (world o) ax = Some ss
    ∧ ss !! (i * Z.to_nat (ncols a) + j)%nat = Some s
    ∧ position_of (world o) s = Some (i, j)
    ∧ artists_of (world o) s = Some (full_decoration a).
Proof.
  intros Hr1 Hc1 Hi Hj o Hres.
  destruct (run_inject_inr f a h0 fig ax Hres)
    as (Hr & Hc & -> & -> & Hgs & _).
  fold o in Hgs.
  assert (i * Z.to_nat (ncols a) + j < cells a)%nat as Hij
    by (unfold cells; nia).
  destruct (obs_axes a h0 _ _ Hgs _ Hij) as (Harts & _ & Hpos).
  destruct (div_mod_row i j (Z.to_nat (ncols a)) Hj) as [Hdiv Hmod].
  rewrite Hdiv, Hmod in Hpos. rewrite progress_all in Harts by done.
  exists (VRef <$> axes_locs a h0),
         (VRef (first_axes h0 + (i * Z.to_nat (ncols a) + j))%nat).
  split_and!.
  - by apply (obs_item2 a h0 Hr Hc _ _ Hgs).
  - by apply (obs_surfaces a h0 Hr Hc _ _ Hgs).
  - by apply axes_locs_lookup.
  - exact Hpos.
  - exact Harts.
Qed.

Lemma basemap_grid_indexing_2x3 :
  let o := run (inject no_fault mpl)
               (quick_draw_spatial_basemap (with_grid 2 3 defaults))
               import_heap in
  res o = inr (VRef 2%nat, VRef 9%nat)
  ∧ ∃ s, item2 (world o) (VRef 9%nat) 1 2 = Some s
         ∧ position_of (world o) s = Some (1%nat, 2%nat).
Proof.
  intros o.
  assert (res o = inr (VRef 2%nat, VRef 9%nat)) as Hres by reflexivity.
  destruct (basemap_grid_indexing no_fault (with_grid 2 3 defaults)
              import_heap _ _ 1 2 ltac:(simpl; lia) ltac:(simpl; lia)
              ltac:(simpl; lia) ltac:(simpl; lia) Hres)
    as (ss & s & Hitem & _ & _ & Hpos & _).
  split; [exact Hres |].
  exists s. split; [exact Hitem | exact Hpos].
Defined.

(** Against the toolkit double, whatever the toolkit may reject of
    either call: the styles, the label selector and the central
    longitude have no part in the layout.  When two calls from the same
    heap that agree on [nrows] and [ncols] both return, they return the
    same figure and surface references, and the returned value has the
    same shape and the same flattened surfaces, each at the same grid
    cell. *)
Theorem basemap_layout_ignores_style
    (f f' : call → heap → option exn) (a a' : kwargs) (h0 : heap)
    fig ax fig' ax' :
  nrows a = nrows a' → ncols a = ncols a' →
  let o := run (inject f mpl) (quick_draw_spatial_basemap a) h0 in
  let o' := run (inject f' mpl) (quick_draw_spatial_basemap a') h0 in
  res o = inr (fig, ax) → res o' = inr (fig', ax') →
  fig = fig' ∧ ax = ax'
  ∧ shape (world o) ax = shape (world o') ax
  ∧ is_Some (shape (world o) ax)
  ∧ surfaces (world o) ax = surfaces (world o') ax
  ∧ ∃ ss, surfaces (world o) ax = Some ss
          ∧ ∀ s, s ∈ ss →
              position_of (world o) s = position_of (world o') s
              ∧ is_Some (position_of (world o) s).
Proof.
  intros Hnr Hnc o o' Hres Hres'.
  destruct (run_inject_inr f a h0 fig ax Hres)
    as (Hr & Hc & -> & -> & Hgs & _).
  destruct (run_inject_inr f' a' h0 fig' ax' Hres')
    as (Hr' & Hc' & -> & -> & Hgs' & _).
  fold o in Hgs. fold o' in Hgs'.
  assert (single a' = single a) as Hs by (unfold single; by rewrite Hnr, Hnc).
  assert (cells a' = cells a) as Hcells by (unfold cells; by rewrite Hnr, Hnc).
  assert (ax_of a' h0 = ax_of a h0) as Hax
    by (unfold ax_of; by rewrite Hs, Hcells).
  assert (axes_locs a' h0 = axes_locs a h0) as Hlocs
    by (unfold axes_locs; by rewrite Hcells).
  pose proof (obs_shape a h0 Hr Hc _ _ Hgs) as Hsh.
  pose proof (obs_shape a' h0 Hr' Hc' _ _ Hgs') as Hsh'.
  pose proof (obs_surfaces a h0 Hr Hc _ _ Hgs) as Hss.
  pose proof (obs_surfaces a' h0 Hr' Hc' _ _ Hgs') as Hss'.
  rewrite Hax, Hs, Hcells, <- Hnr, <- Hnc in Hsh'.
  rewrite Hax, Hlocs in Hss'.
  split_and!; [done | done | by rewrite Hsh, Hsh' | by rewrite Hsh
              | by rewrite Hss, Hss' |].
  exists (VRef <$> axes_locs a h0). split; [exact Hss |].
  intros s Hin.
  apply axes_locs_elem in Hin as (i & Hi & ->).
  destruct (obs_axes a h0 _ _ Hgs _ Hi) as (_ & _ & ->).
  assert (i < cells a')%nat as Hi' by (by rewrite Hcells).
  destruct (obs_axes a' h0 _ _ Hgs' _ Hi') as (_ & _ & ->).
  rewrite <- Hnc. split; [done | by eexists].
Qed.

Lemma basemap_layout_ignores_style_2x2 :
  let a := with_grid 2 2 defaults in
  let a' := with_draw_labels (VBool false)
              (with_central_longitude (VFloat 180) a) in
  let o := run (inject no_fault mpl) (quick_draw_spatial_basemap a)
               import_heap in
  let o' := run (inject no_fault mpl) (quick_draw_spatial_basemap a')
                import_heap in
  res o = inr (VRef 2%nat, VRef 7%nat)
  ∧ res o' = inr (VRef 2%nat, VRef 7%nat)
  ∧ shape (world o) (VRef 7%nat) = shape (world o') (VRef 7%nat)
  ∧ surfaces (world o) (VRef 7%nat) = surfaces (world o') (VRef 7%nat).
Proof.
  intros a a' o o'.
  assert (res o = inr (VRef 2%nat, VRef 7%nat)) as Hres by reflexivity.
  assert (res o' = inr (VRef 2%nat, VRef 7%nat)) as Hres' by reflexivity.
  destruct (basemap_layout_ignores_style no_fault no_fault a a' import_heap
              _ _ _ _ eq_refl eq_refl Hres Hres')
    as (_ & _ & Hsh & _ & Hss & _).
  split; [exact Hres |]. split; [exact Hres' |].
  split; [exact Hsh | exact Hss].
Defined.
